(** * ORBIT operations: the shared helpers of [ag.orbit.ops.Abstract]

    A shallow embedding of [src/ag/orbit/ops/__init__.py]: the text framer
    ([read_text]), the text-safety classifiers, the URI checks, the rendering
    ([to_string]), the range validators, the address codec and the equality
    test, followed by the properties the specification states about them and
    by further properties of the same functions.

    Python values are modelled as the code uses them: a [str] is the list of
    its code points, a [bytes] object the list of its byte values, an [int] is
    a [Z], an exception is a value of [exn] carried by the [result] monad. *)

From Stdlib Require Import ZArith List String Ascii Bool Lia.
From stdpp Require Import gmap strings.
Import ListNotations.

Local Open Scope Z_scope.

(** ** Python: exceptions and results *)

(** The messages of the [ValueError]s the module itself raises, and the one
    [bytes(...)] raises on an element outside [range(256)]. *)
Inductive message : Type :=
  | MayNotBeZero                 (* '{} may not be zero' *)
  | OutOfRange (zero_note : bool) (* '{} is out of range: ...', with ', zero is not allowed' *)
  | NotValidAddress              (* '{} is not a valid bitcoincash address' *)
  | NotEnoughHeader              (* 'Not enough data reading address version/length' *)
  | NotEnoughPayload             (* 'Not enough data reading address' *)
  | BytesRange.                  (* 'bytes must be in range(0, 256)' *)

Inductive exn : Type :=
  | ValueError (name : string) (m : message)
  | UnicodeEncodeError
  | UnicodeDecodeError
  | OverflowError
  | AttributeError
  | InvalidAddress               (* cashaddress.convert.InvalidAddress *)
  | UriError.                    (* rfc3986.exceptions.RFC3986Exception and the like *)

Inductive result (A : Type) : Type :=
  | Ok (a : A)
  | Raise (e : exn).
Arguments Ok {A} a.
Arguments Raise {A} e.

#[global] Instance result_ret : MRet result := fun A a => Ok a.
#[global] Instance result_bind : MBind result := fun A B f r =>
  match r with
  | Ok a => f a
  | Raise e => Raise e
  end.
#[global] Instance result_fmap : FMap result := fun A B f r =>
  match r with
  | Ok a => Ok (f a)
  | Raise e => Raise e
  end.

(** [try: body except E: handler], where [caught] says which exceptions the
    clause names. *)
Definition try_except {A} (body : result A) (caught : exn -> bool)
    (handler : result A) : result A :=
  match body with
  | Ok a => Ok a
  | Raise e => if caught e then handler else Raise e
  end.

Definition is_UnicodeEncodeError (e : exn) : bool :=
  match e with UnicodeEncodeError => true | _ => false end.

(** [except Exception]: every exception of the model derives from it. *)
Definition is_Exception (e : exn) : bool := true.

(** ** Python: [str], [bytes] and [int] built-ins *)

(** A [str]: its code points. A [bytes]: its byte values. *)
Definition text := list Z.
Definition bytes := list Z.

Definition len {A} (l : list A) : Z := Z.of_nat (length l).

(** Slice bounds as Python normalises them: a negative index counts from the
    end, and both ends are clamped to the sequence. *)
Definition slice_index (i n : Z) : Z :=
  if i <? 0 then Z.max 0 (n + i) else Z.min i n.

(** [data[lo:hi]] *)
Definition slice {A} (data : list A) (lo hi : Z) : list A :=
  let lo' := slice_index lo (len data) in
  let hi' := slice_index hi (len data) in
  firstn (Z.to_nat (hi' - lo')) (skipn (Z.to_nat lo') data).

(** [data[:hi]] and [data[lo:]] *)
Definition slice_to {A} (data : list A) (hi : Z) : list A := slice data 0 hi.
Definition slice_from {A} (data : list A) (lo : Z) : list A :=
  slice data lo (len data).

Fixpoint starts_with (sub data : bytes) : bool :=
  match sub, data with
  | [], _ => true
  | _ :: _, [] => false
  | s :: sub', d :: data' => (s =? d) && starts_with sub' data'
  end.

Fixpoint find_from (i : Z) (data sub : bytes) : Z :=
  if starts_with sub data then i
  else match data with
       | [] => -1
       | _ :: data' => find_from (i + 1) data' sub
       end.

(** [data.find(sub)]: the lowest index at which [sub] occurs, or -1. *)
Definition bytes_find (data sub : bytes) : Z := find_from 0 data sub.

Fixpoint be_digits (n : nat) (x : Z) : bytes :=
  match n with
  | O => []
  | S k => be_digits k (x / 256) ++ [x mod 256]
  end.

(** [x.to_bytes(n, 'big')], unsigned. *)
Definition to_bytes (x : Z) (n : nat) : result bytes :=
  if (x <? 0) || (256 ^ Z.of_nat n <=? x) then Raise OverflowError
  else Ok (be_digits n x).

(** [int.from_bytes(data, 'big')] *)
Definition from_bytes (data : bytes) : Z :=
  fold_left (fun acc b => acc * 256 + b) data 0.

(** [bytes(l)] for a list of integers. *)
Definition bytes_of_list (l : list Z) : result bytes :=
  if forallb (fun b => (0 <=? b) && (b <? 256)) l then Ok l
  else Raise (ValueError "bytes" BytesRange).

(** *** The 'ascii' codec (strict) *)

Definition ascii_encode_char (c : Z) : result Z :=
  if (0 <=? c) && (c <? 128) then Ok c else Raise UnicodeEncodeError.

Fixpoint ascii_encode (t : text) : result bytes :=
  match t with
  | [] => Ok []
  | c :: t' =>
      b ← ascii_encode_char c;
      bs ← ascii_encode t';
      Ok (b :: bs)
  end.

Fixpoint ascii_decode (data : bytes) : result text :=
  match data with
  | [] => Ok []
  | b :: data' =>
      if b <? 128 then cons b <$> ascii_decode data'
      else Raise UnicodeDecodeError
  end.

(** *** The 'utf-8' codec (strict) *)

Definition is_surrogate (c : Z) : bool := (0xD800 <=? c) && (c <=? 0xDFFF).

(** One code point to its one to four bytes. Surrogates are refused, as is
    anything that is not a code point (no [str] holds such a value). *)
Definition utf8_encode_char (c : Z) : result bytes :=
  if c <? 0 then Raise UnicodeEncodeError
  else if c <? 0x80 then Ok [c]
  else if c <? 0x800 then
    Ok [Z.lor 0xC0 (Z.shiftr c 6); Z.lor 0x80 (Z.land c 0x3F)]
  else if c <? 0x10000 then
    if is_surrogate c then Raise UnicodeEncodeError
    else Ok [Z.lor 0xE0 (Z.shiftr c 12);
             Z.lor 0x80 (Z.land (Z.shiftr c 6) 0x3F);
             Z.lor 0x80 (Z.land c 0x3F)]
  else if c <? 0x110000 then
    Ok [Z.lor 0xF0 (Z.shiftr c 18);
        Z.lor 0x80 (Z.land (Z.shiftr c 12) 0x3F);
        Z.lor 0x80 (Z.land (Z.shiftr c 6) 0x3F);
        Z.lor 0x80 (Z.land c 0x3F)]
  else Raise UnicodeEncodeError.

Fixpoint utf8_encode (t : text) : result bytes :=
  match t with
  | [] => Ok []
  | c :: t' =>
      bs ← utf8_encode_char c;
      rest ← utf8_encode t';
      Ok (bs ++ rest)
  end.

(** A continuation byte is [10xxxxxx]. *)
Definition is_continuation (b : Z) : bool := Z.land b 0xC0 =? 0x80.

(** The six payload bits of a continuation byte appended to [acc]. *)
Definition push6 (acc b : Z) : Z := Z.lor (Z.shiftl acc 6) (Z.land b 0x3F).

(** Strict decoding: a stray or missing continuation byte, an overlong form, a
    surrogate, a value above U+10FFFF and the bytes 0xF8..0xFF are all
    errors. *)
Fixpoint utf8_decode (data : bytes) : result text :=
  match data with
  | [] => Ok []
  | b0 :: r0 =>
      if (0 <=? b0) && (b0 <? 0x80) then cons b0 <$> utf8_decode r0
      else if Z.land b0 0xE0 =? 0xC0 then
        match r0 with
        | b1 :: r1 =>
            let c := push6 (Z.land b0 0x1F) b1 in
            if is_continuation b1 && (0x80 <=? c)
            then cons c <$> utf8_decode r1
            else Raise UnicodeDecodeError
        | _ => Raise UnicodeDecodeError
        end
      else if Z.land b0 0xF0 =? 0xE0 then
        match r0 with
        | b1 :: b2 :: r2 =>
            let c := push6 (push6 (Z.land b0 0x0F) b1) b2 in
            if is_continuation b1 && is_continuation b2
               && (0x800 <=? c) && negb (is_surrogate c)
            then cons c <$> utf8_decode r2
            else Raise UnicodeDecodeError
        | _ => Raise UnicodeDecodeError
        end
      else if Z.land b0 0xF8 =? 0xF0 then
        match r0 with
        | b1 :: b2 :: b3 :: r3 =>
            let c := push6 (push6 (push6 (Z.land b0 0x07) b1) b2) b3 in
            if is_continuation b1 && is_continuation b2 && is_continuation b3
               && (0x10000 <=? c) && (c <? 0x110000)
            then cons c <$> utf8_decode r3
            else Raise UnicodeDecodeError
        | _ => Raise UnicodeDecodeError
        end
      else Raise UnicodeDecodeError
  end.

(** The codecs the framer is used with; [None] stands for the default. *)
Inductive codec : Type := Utf8 | Ascii7.

Definition encode (e : codec) (t : text) : result bytes :=
  match e with
  | Utf8 => utf8_encode t
  | Ascii7 => ascii_encode t
  end.

Definition decode (e : codec) (data : bytes) : result text :=
  match e with
  | Utf8 => utf8_decode data
  | Ascii7 => ascii_decode data
  end.

(** A string literal as a [str]. *)
Definition text_of_string (s : string) : text :=
  map (fun a => Z.of_nat (nat_of_ascii a)) (list_ascii_of_string s).

(** ** The external collaborators

    The module calls three libraries that are not part of the repository. Each
    is an interface here; the definitions below are stated over any
    implementation of it. *)

(** [unicodedata]: the general category of a code point, a two-letter code. *)
Class UnicodeData := {
  category : Z -> string
}.

(** [rfc3986]: a URI reference split into its components; an absent
    component is [None]. *)
Record uri : Type := {
  scheme : option text;
  userinfo : option text;
  host : option text;
  port : option text;
  path : option text;
  query : option text;
  fragment : option text
}.

Class Rfc3986 := {
  uri_reference : text -> result uri
}.

Inductive component : Type :=
  | Scheme | Userinfo | Host | Port | Path | Query | Fragment.

Definition get_component (u : uri) (c : component) : option text :=
  match c with
  | Scheme => scheme u
  | Userinfo => userinfo u
  | Host => host u
  | Port => port u
  | Path => path u
  | Query => query u
  | Fragment => fragment u
  end.

(** Modelled from the spec: the presence/scheme validator of the URI library
    ([rfc3986.validators.Validator]), whose code is not in the repository: the
    components it requires and the schemes it allows, none of either when it
    is created. *)
Record Validator : Type := {
  allowed_schemes : list text;
  required_components : list component
}.

Definition Validator_new : Validator :=
  {| allowed_schemes := []; required_components := [] |}.

Definition require_presence_of (v : Validator) (cs : list component) : Validator :=
  {| allowed_schemes := allowed_schemes v;
     required_components := required_components v ++ cs |}.

Definition allow_schemes (v : Validator) (ss : list text) : Validator :=
  {| allowed_schemes := allowed_schemes v ++ ss;
     required_components := required_components v |}.

Definition text_eqb (a b : text) : bool := bool_decide (a = b).

(** [x is None] *)
Definition is_None {A} (o : option A) : bool :=
  match o with
  | None => true
  | Some _ => false
  end.

(** Modelled from the spec: [validator.validate(uri)] of the URI library. It
    returns nothing, or raises: first over a required component that is
    absent, then over a scheme outside the allowed ones, when some are set. *)
Definition validate_uri (v : Validator) (u : uri) : result unit :=
  if existsb (fun c => is_None (get_component u c)) (required_components v)
  then Raise UriError
  else match scheme u, allowed_schemes v with
       | Some s, _ :: _ =>
           if existsb (text_eqb s) (allowed_schemes v) then Ok tt
           else Raise UriError
       | _, _ => Ok tt
       end.

(** [cashaddress.convert]: an [Address] holds a version (the name of the
    address type when parsed from a string, its integer code when built from
    one), the payload and the prefix. *)
Inductive version : Type :=
  | VName (s : string)
  | VCode (n : Z).

Record Address : Type := {
  addr_version : version;
  addr_payload : list Z;
  addr_prefix : string
}.

(** One row of the library's version map: (name, code, testnet). *)
Definition mapping : Type := string * Z * bool.

(** The calls the module makes. Each fails by raising the library's
    [InvalidAddress], which is [None] here. *)
Class CashAddress := {
  (** [is_valid(address)] *)
  is_valid : string -> bool;
  (** [Address.from_string(address)] *)
  from_string : string -> option Address;
  (** [Address._address_type(kind, version)] *)
  address_type : string -> version -> option mapping;
  (** [Address(version, payload)] *)
  new_address : version -> list Z -> option Address;
  (** [address.cash_address()] *)
  cash_address : Address -> option string
}.

(** A call into the address library. *)
Definition lib {A} (r : option A) : result A :=
  match r with
  | Some a => Ok a
  | None => Raise InvalidAddress
  end.

(** ** [class Abstract] *)

Definition SEPARATOR : bytes := [0xFF].
Definition ENCODING : codec := Utf8.

(** The two kinds of value that [==] meets in the classifiers: the elements
    of a [bytes] object are [int]s, the separator is a [bytes] object. An
    [int] and a [bytes] object are never equal. *)
Inductive pyval : Type :=
  | PInt (n : Z)
  | PBytes (b : bytes).

Definition py_eq (x y : pyval) : bool :=
  match x, y with
  | PInt a, PInt b => a =? b
  | PBytes a, PBytes b => bool_decide (a = b)
  | _, _ => false
  end.

Definition read_text (data : bytes) (encoding : option codec)
  : result (option text * Z * bool) :=
  let done := false in
  let finish (end_ : Z) (done : bool) :=
    let encoding := match encoding with None => ENCODING | Some e => e end in
    t ← decode encoding (slice_to data end_);
    Ok (Some t, end_, done) in
  let end_ := bytes_find data SEPARATOR in
  if end_ <? 0 then finish (len data) true
  else if end_ =? 0 then Ok (None, 0, false)
  else finish end_ done.

Section Classifiers.
Context `{UnicodeData}.

Definition has_unicode_type (t : text) (types : list string) : bool :=
  existsb (fun c => existsb (fun ty => String.prefix ty (category c)) types) t.

Definition is_safe_unicode (t : text) (forbidden_types : list string)
  : result bool :=
  btext ← encode ENCODING t;
  if existsb (fun b => py_eq (PInt b) (PBytes SEPARATOR)) btext then Ok false
  else Ok (negb (has_unicode_type t forbidden_types)).
End Classifiers.

Definition is_safe_ascii (t : text) : result bool :=
  try_except
    (btext ← encode Ascii7 t;
     if existsb (fun b => (b <? 32) || (b >? 126) || py_eq (PInt b) (PBytes SEPARATOR)) btext
     then Ok false
     else Ok true)
    is_UnicodeEncodeError
    (Ok false).

Definition link_uri_validator_1 : Validator :=
  require_presence_of Validator_new [Scheme; Host].
Definition link_uri_validator_2 : Validator :=
  require_presence_of Validator_new [Scheme; Path].
Definition src_uri_validator_1 : Validator :=
  allow_schemes (require_presence_of Validator_new [Scheme; Host; Path])
    [text_of_string "http"; text_of_string "https"].
Definition src_uri_validator_2 : Validator :=
  allow_schemes (require_presence_of Validator_new [Scheme; Path])
    [text_of_string "data"].

Section Uris.
Context `{Rfc3986}.

(** In both checks the second validator runs only when the first raises. *)
Definition is_link_uri (t : text) : result bool :=
  safe ← is_safe_ascii t;
  if negb safe then Ok false
  else
    u ← uri_reference t;
    try_except
      (_ ← validate_uri link_uri_validator_1 u; Ok true)
      is_Exception
      (try_except
         (_ ← validate_uri link_uri_validator_2 u; Ok true)
         is_Exception
         (Ok false)).

Definition is_src_uri (t : text) : result bool :=
  safe ← is_safe_ascii t;
  if negb safe then Ok false
  else
    u ← uri_reference t;
    try_except
      (_ ← validate_uri src_uri_validator_1 u; Ok true)
      is_Exception
      (try_except
         (_ ← validate_uri src_uri_validator_2 u; Ok true)
         is_Exception
         (Ok false)).
End Uris.

(** A keyword argument as [to_string] looks at it: whether the value is a
    [Decimal], what [str()] gives for it and what [repr()] gives. *)
Record argument : Type := {
  is_Decimal : bool;
  arg_str : string;
  arg_repr : string
}.

Definition newline : string := String "010"%char EmptyString.

(** [if indent]: [None] and the empty string count as false. *)
Definition truth (indent : option string) : bool :=
  match indent with
  | Some (String _ _) => true
  | _ => false
  end.

(** [cls_name] is [cls.__name__]; [kwargs] are the keyword arguments in the
    order they were given. *)
Definition to_string (cls_name : string) (indent : option string)
    (kwargs : list (string * argument)) : string :=
  let text := cls_name in
  if 0 <? len kwargs then
    let text := text +:+ ":" in
    fold_left
      (fun text kv =>
         let text := text +:+ (if truth indent then newline +:+ default "" indent
                               else " ") in
         text +:+ (kv.1 +:+ "=" +:+ (if is_Decimal kv.2 then arg_str kv.2
                                     else arg_repr kv.2)))
      kwargs text
  else text.

(** [value] is an integer or [None]. *)
Definition validate_range (name : string) (value : option Z) (minval maxval : Z)
    (optional : bool) : result (option Z) :=
  match value with
  | Some v =>
      if negb optional && ((v <? minval) || (v >? maxval))
      then Raise (ValueError name (OutOfRange false))
      else Ok value
  | None => Ok value
  end.

(** [2**(8*size - 1)]. For [size <= 0] Python's power is a float in (0, 1/2],
    so that every integer is below [minval] or above [maxval]; [Z.pow] is 0
    there, which puts every integer out of range as well. *)
Definition validate_range_bytesize (name : string) (value : option Z) (size : Z)
    (optional allow_zero signed : bool) : result (option Z) :=
  if bool_decide (value = Some 0) && negb allow_zero
  then Raise (ValueError name MayNotBeZero)
  else
    match value with
    | Some v =>
        if negb optional then
          let minval := 0 - 2 ^ (8 * size - 1) in
          let maxval := 2 ^ (8 * size - 1) - 1 in
          if (v <? minval) || (v >? maxval)
          then Raise (ValueError name (OutOfRange (negb allow_zero)))
          else Ok value
        else Ok value
    | None => Ok value
    end.

Section Addresses.
Context `{CashAddress}.

Definition validate_address (name : string) (address : string) : result string :=
  if negb (is_valid address) then Raise (ValueError name NotValidAddress)
  else Ok address.

Definition serialize_address (address : string) : result bytes :=
  address ← lib (from_string address);
  m ← lib (address_type "cash" (addr_version address));
  let addr_ver := m.1.2 in
  data ← to_bytes addr_ver 1;
  l ← to_bytes (len (addr_payload address)) 1;
  p ← bytes_of_list (addr_payload address);
  Ok (data ++ l ++ p).

Definition deserialize_address (data : bytes) : result (string * bytes) :=
  if len data <? 2 then Raise (ValueError "" NotEnoughHeader)
  else
    let addr_ver := from_bytes (slice data 0 1) in
    let addr_len := from_bytes (slice data 1 2) in
    if len data <? addr_len + 2 then Raise (ValueError "" NotEnoughPayload)
    else
      a ← lib (new_address (VCode addr_ver) (slice data 2 (addr_len + 2)));
      address ← lib (cash_address a);
      let data := slice_from data (2 + addr_len) in
      Ok (address, data).
End Addresses.

(** *** Equality

    An object has a class and, unless its class leaves none, an attribute
    dictionary; an operation always has one. [issubclass] is the class
    hierarchy, [value_eq] the [==] of field values. *)
Section Equality.
Context {class value : Type}.
Variable issubclass : class -> class -> bool.
Variable value_eq : value -> value -> bool.

Record object : Type := {
  class_of : class;
  dict_of : option (gmap string value)
}.

Record operation : Type := {
  op_class : class;
  op_dict : gmap string value
}.

Definition isinstance (o : object) (c : class) : bool :=
  issubclass (class_of o) c.

Definition as_object (x : operation) : object :=
  {| class_of := op_class x; dict_of := Some (op_dict x) |}.

(** [o.__dict__] *)
Definition get_dict (o : object) : result (gmap string value) :=
  match dict_of o with
  | Some d => Ok d
  | None => Raise AttributeError
  end.

(** [d1 == d2] on dictionaries: the same number of keys, and every key of
    [d1] is in [d2] with an equal value. *)
Definition dict_eq (d1 d2 : gmap string value) : bool :=
  bool_decide (size d1 = size d2)
  && forallb (fun kv => match d2 !! kv.1 with
                        | Some v' => value_eq kv.2 v'
                        | None => false
                        end) (map_to_list d1).

Definition __eq__ (self : operation) (other : object) : result bool :=
  if isinstance other (op_class self) || isinstance (as_object self) (class_of other)
  then
    d1 ← get_dict (as_object self);
    d2 ← get_dict other;
    Ok (dict_eq d1 d2)
  else Ok false.

Definition __ne__ (self : operation) (other : object) : result bool :=
  r ← __eq__ self other;
  Ok (negb r).
End Equality.

Arguments object : clear implicits.
Arguments operation : clear implicits.

(** ** An implementation of the address library

    The [cashaddress] package as its callers see it: the version map, the
    CashAddr base-32 form with its checksum, and Base58Check for legacy
    strings. It gives the interface above a concrete instance on which the
    codec can be run. *)

(** *** SHA-256 (FIPS 180-4), on byte lists *)
Module Sha256.
Definition mask32 : Z := 0xFFFFFFFF.
Definition add32 (a b : Z) : Z := Z.land (a + b) mask32.
Definition rotr (n x : Z) : Z :=
  Z.lor (Z.shiftr x n) (Z.land (Z.shiftl x (32 - n)) mask32).
Definition not32 (x : Z) : Z := Z.lxor x mask32.

Definition ch (x y z : Z) : Z := Z.lxor (Z.land x y) (Z.land (not32 x) z).
Definition maj (x y z : Z) : Z :=
  Z.lxor (Z.lxor (Z.land x y) (Z.land x z)) (Z.land y z).
Definition big_sigma0 (x : Z) : Z := Z.lxor (Z.lxor (rotr 2 x) (rotr 13 x)) (rotr 22 x).
Definition big_sigma1 (x : Z) : Z := Z.lxor (Z.lxor (rotr 6 x) (rotr 11 x)) (rotr 25 x).
Definition small_sigma0 (x : Z) : Z := Z.lxor (Z.lxor (rotr 7 x) (rotr 18 x)) (Z.shiftr x 3).
Definition small_sigma1 (x : Z) : Z := Z.lxor (Z.lxor (rotr 17 x) (rotr 19 x)) (Z.shiftr x 10).

Definition K : list Z :=
  [0x428A2F98; 0x71374491; 0xB5C0FBCF; 0xE9B5DBA5; 0x3956C25B; 0x59F111F1; 0x923F82A4; 0xAB1C5ED5;
   0xD807AA98; 0x12835B01; 0x243185BE; 0x550C7DC3; 0x72BE5D74; 0x80DEB1FE; 0x9BDC06A7; 0xC19BF174;
   0xE49B69C1; 0xEFBE4786; 0x0FC19DC6; 0x240CA1CC; 0x2DE92C6F; 0x4A7484AA; 0x5CB0A9DC; 0x76F988DA;
   0x983E5152; 0xA831C66D; 0xB00327C8; 0xBF597FC7; 0xC6E00BF3; 0xD5A79147; 0x06CA6351; 0x14292967;
   0x27B70A85; 0x2E1B2138; 0x4D2C6DFC; 0x53380D13; 0x650A7354; 0x766A0ABB; 0x81C2C92E; 0x92722C85;
   0xA2BFE8A1; 0xA81A664B; 0xC24B8B70; 0xC76C51A3; 0xD192E819; 0xD6990624; 0xF40E3585; 0x106AA070;
   0x19A4C116; 0x1E376C08; 0x2748774C; 0x34B0BCB5; 0x391C0CB3; 0x4ED8AA4A; 0x5B9CCA4F; 0x682E6FF3;
   0x748F82EE; 0x78A5636F; 0x84C87814; 0x8CC70208; 0x90BEFFFA; 0xA4506CEB; 0xBEF9A3F7; 0xC67178F2].

Definition initial : list Z :=
  [0x6A09E667; 0xBB67AE85; 0x3C6EF372; 0xA54FF53A; 0x510E527F; 0x9B05688C; 0x1F83D9AB; 0x5BE0CD19].

(** The message, a 1 bit, zeros, and the bit length on eight bytes, to a
    multiple of 64 bytes. *)
Definition pad (msg : bytes) : bytes :=
  let n := length msg in
  let zeros := ((64 - (n + 9) mod 64) mod 64)%nat in
  msg ++ [0x80] ++ repeat 0 zeros ++ be_digits 8 (8 * Z.of_nat n).

Fixpoint words (n : nat) (data : bytes) : list Z :=
  match n with
  | O => []
  | S k => from_bytes (firstn 4 data) :: words k (skipn 4 data)
  end.

(** The schedule, newest word first: [recent] holds the last sixteen. *)
Fixpoint schedule (n : nat) (recent : list Z) : list Z :=
  match n with
  | O => []
  | S k =>
      let w := add32 (add32 (small_sigma1 (nth 1 recent 0)) (nth 6 recent 0))
                     (add32 (small_sigma0 (nth 14 recent 0)) (nth 15 recent 0)) in
      w :: schedule k (w :: firstn 15 recent)
  end.

Definition round (s : list Z) (kw : Z * Z) : list Z :=
  match s with
  | [a; b; c; d; e; f; g; h] =>
      let t1 := add32 (add32 (add32 h (big_sigma1 e)) (add32 (ch e f g) kw.1)) kw.2 in
      let t2 := add32 (big_sigma0 a) (maj a b c) in
      [add32 t1 t2; a; b; c; add32 d t1; e; f; g]
  | _ => s
  end.

Definition compress (h : list Z) (block : bytes) : list Z :=
  let w16 := words 16 block in
  let w := w16 ++ schedule 48 (rev w16) in
  let s := fold_left round (combine K w) h in
  map (fun p => add32 p.1 p.2) (combine h s).

Fixpoint blocks (n : nat) (h : list Z) (data : bytes) : list Z :=
  match n with
  | O => h
  | S k => blocks k (compress h (firstn 64 data)) (skipn 64 data)
  end.

Definition digest (msg : bytes) : bytes :=
  let data := pad msg in
  concat (map (be_digits 4) (blocks (length data / 64) initial data)).
End Sha256.

(** *** Base58Check *)
Module Base58.
Definition alphabet : string :=
  "123456789ABCDEFGHJKLMNPQRSTUVWXYZabcdefghijkmnopqrstuvwxyz".

(** [s.find(c)]: the index of the character, or -1. *)
Fixpoint find_char (i : Z) (s : list ascii) (c : ascii) : Z :=
  match s with
  | [] => -1
  | x :: s' => if Ascii.eqb x c then i else find_char (i + 1) s' c
  end.

(** The number the digits spell; an unknown character is an error. *)
Fixpoint decode_int (acc : Z) (s : list ascii) : option Z :=
  match s with
  | [] => Some acc
  | c :: s' =>
      let d := find_char 0 (list_ascii_of_string alphabet) c in
      if d <? 0 then None else decode_int (acc * 58 + d) s'
  end.

Fixpoint leading_ones (s : list ascii) : nat * list ascii :=
  match s with
  | c :: s' =>
      if Ascii.eqb c "1" then let r := leading_ones s' in (S r.1, r.2)
      else (O, s)
  | [] => (O, [])
  end.

(** The bytes of a non-negative number, most significant first, none for 0. *)
Definition minimal_bytes (x : Z) : bytes :=
  be_digits (Z.to_nat ((Z.log2 x + 8) / 8)) x.

Definition b58decode (s : string) : option bytes :=
  let r := leading_ones (list_ascii_of_string s) in
  acc ← decode_int 0 r.2;
  Some (repeat 0 r.1 ++ (if acc =? 0 then [] else minimal_bytes acc)).

Definition b58decode_check (s : string) : option bytes :=
  r ← b58decode s;
  let body := slice r 0 (-4) in
  let check := slice r (-4) (len r) in
  if bool_decide (check = firstn 4 (Sha256.digest (Sha256.digest body)))
  then Some body else None.
End Base58.

(** *** The CashAddr primitives ([cashaddress.crypto]) *)
Module CashAddr.
Definition CHARSET : string := "qpzry9x8gf2tvdw0s3jn54khce6mua7l".

Definition generator : list (Z * Z) :=
  [(0x01, 0x98f2bc8e61); (0x02, 0x79b76d99e2); (0x04, 0xf33e5fb3c4);
   (0x08, 0xae2eabe2a8); (0x10, 0x1e4f43e470)].

Definition polymod_step (chk value : Z) : Z :=
  let top := Z.shiftr chk 35 in
  let chk := Z.lxor (Z.shiftl (Z.land chk 0x07ffffffff) 5) value in
  fold_left (fun chk g => if Z.land top g.1 =? 0 then chk else Z.lxor chk g.2)
            generator chk.

Definition polymod (values : list Z) : Z :=
  Z.lxor (fold_left polymod_step values 1) 1.

Definition ord (c : ascii) : Z := Z.of_nat (nat_of_ascii c).

Definition prefix_expand (prefix : string) : list Z :=
  map (fun c => Z.land (ord c) 0x1f) (list_ascii_of_string prefix) ++ [0].

Definition calculate_checksum (prefix : string) (payload : list Z) : list Z :=
  let poly := polymod (prefix_expand prefix ++ payload ++ [0; 0; 0; 0; 0; 0; 0; 0]) in
  map (fun i => Z.land (Z.shiftr poly (5 * (7 - i))) 0x1f) (seqZ 0 8).

Definition verify_checksum (prefix : string) (payload : list Z) : bool :=
  polymod (prefix_expand prefix ++ payload) =? 0.

Definition b32decode (inputs : string) : list Z :=
  map (Base58.find_char 0 (list_ascii_of_string CHARSET)) (list_ascii_of_string inputs).

Definition b32encode (inputs : list Z) : string :=
  string_of_list_ascii
    (map (fun code => nth (Z.to_nat code) (list_ascii_of_string CHARSET) "q"%char) inputs).

(** Emit the complete groups of [tobits] bits held in the low [bits] of [acc]. *)
Fixpoint emit (fuel : nat) (tobits acc bits : Z) : list Z * Z :=
  match fuel with
  | O => ([], bits)
  | S k =>
      if tobits <=? bits then
        let bits := bits - tobits in
        let r := emit k tobits acc bits in
        (Z.land (Z.shiftr acc bits) (Z.shiftl 1 tobits - 1) :: r.1, r.2)
      else ([], bits)
  end.

Fixpoint convert (data : list Z) (frombits tobits acc bits : Z)
  : option (list Z * Z * Z) :=
  match data with
  | [] => Some ([], acc, bits)
  | value :: data' =>
      if (value <? 0) || negb (Z.shiftr value frombits =? 0) then None
      else
        let acc := Z.land (Z.lor (Z.shiftl acc frombits) value)
                          (Z.shiftl 1 (frombits + tobits - 1) - 1) in
        let out := emit (Z.to_nat (bits + frombits)) tobits acc (bits + frombits) in
        r ← convert data' frombits tobits acc out.2;
        Some (out.1 ++ r.1.1, r.1.2, r.2)
  end.

(** [convertbits(data, frombits, tobits)], padding the last group. *)
Definition convertbits (data : list Z) (frombits tobits : Z) : option (list Z) :=
  r ← convert data frombits tobits 0 0;
  let '(ret, acc, bits) := r in
  if bits =? 0 then Some ret
  else Some (ret ++ [Z.land (Z.shiftl acc (tobits - bits)) (Z.shiftl 1 tobits - 1)]).
End CashAddr.

(** *** The [Address] class ([cashaddress.convert]) *)
Module Cash.
Definition MAINNET_PREFIX : string := "bitcoincash".
Definition TESTNET_PREFIX : string := "bchtest".

Definition VERSION_MAP (kind : string) : list mapping :=
  if String.eqb kind "legacy" then
    [("P2SH", 5, false); ("P2PKH", 0, false);
     ("P2SH-TESTNET", 196, true); ("P2PKH-TESTNET", 111, true)]
  else if String.eqb kind "cash" then
    [("P2SH", 8, false); ("P2PKH", 0, false);
     ("P2SH-TESTNET", 8, true); ("P2PKH-TESTNET", 0, true)]
  else [].

(** [mapping[0] == version or mapping[1] == version] *)
Definition matches (v : version) (m : mapping) : bool :=
  match v with
  | VName s => String.eqb m.1.1 s
  | VCode n => m.1.2 =? n
  end.

(** The first row that matches; none is [InvalidAddress]. *)
Definition lookup_type (kind : string) (v : version) : option mapping :=
  List.find (matches v) (VERSION_MAP kind).

(** [Address(version, payload, prefix)]: without a prefix, the row of the
    version decides between the two networks. *)
Definition init (v : version) (payload : list Z) (prefix : string) : option Address :=
  if negb (String.eqb prefix "") then
    Some {| addr_version := v; addr_payload := payload; addr_prefix := prefix |}
  else
    m ← lookup_type "cash" v;
    Some {| addr_version := v; addr_payload := payload;
            addr_prefix := if (m.2 : bool) then TESTNET_PREFIX else MAINNET_PREFIX |}.

Definition lower_char (c : ascii) : ascii :=
  let n := nat_of_ascii c in
  if (65 <=? n)%nat && (n <=? 90)%nat then ascii_of_nat (n + 32) else c.
Definition upper_char (c : ascii) : ascii :=
  let n := nat_of_ascii c in
  if (97 <=? n)%nat && (n <=? 122)%nat then ascii_of_nat (n - 32) else c.
Definition lower (s : string) : string :=
  string_of_list_ascii (map lower_char (list_ascii_of_string s)).
Definition upper (s : string) : string :=
  string_of_list_ascii (map upper_char (list_ascii_of_string s)).

Definition count_colons (s : string) : nat :=
  length (filter (fun c => Ascii.eqb c ":" = true) (list_ascii_of_string s)).

(** The two sides of the first colon. *)
Fixpoint split_colon (s : list ascii) : list ascii * list ascii :=
  match s with
  | [] => ([], [])
  | c :: s' =>
      if Ascii.eqb c ":" then ([], s')
      else let r := split_colon s' in (c :: r.1, r.2)
  end.

(** A legacy string: Base58Check, the first byte is the version. The one
    string whose decoded body is empty is counted invalid as well. *)
Definition legacy_string (s : string) : option Address :=
  decoded ← Base58.b58decode_check s;
  match decoded with
  | [] => None
  | v :: payload =>
      m ← lookup_type "legacy" (VCode v);
      init (VName m.1.1) payload ""
  end.

Definition cash_string (s : string) : option Address :=
  if negb (String.eqb (upper s) s) && negb (String.eqb (lower s) s) then None
  else
    let s := lower s in
    let s := if (count_colons s =? 0)%nat then MAINNET_PREFIX +:+ ":" +:+ s else s in
    if (1 <? count_colons s)%nat then None
    else
      let parts := split_colon (list_ascii_of_string s) in
      let prefix := string_of_list_ascii parts.1 in
      let decoded := CashAddr.b32decode (string_of_list_ascii parts.2) in
      if negb (CashAddr.verify_checksum prefix decoded) then None
      else
        converted ← CashAddr.convertbits decoded 5 8;
        match converted with
        | [] => None
        | v :: _ =>
            m ← lookup_type "cash" (VCode v);
            let name := if String.eqb prefix TESTNET_PREFIX
                        then m.1.1 +:+ "-TESTNET" else m.1.1 in
            init (VName name) (slice converted 1 (-6)) prefix
        end.

Definition parse (s : string) : option Address :=
  if (count_colons s =? 0)%nat then legacy_string s else cash_string s.

Definition render (a : Address) : option string :=
  m ← lookup_type "cash" (addr_version a);
  payload ← CashAddr.convertbits (m.1.2 :: addr_payload a) 8 5;
  let checksum := CashAddr.calculate_checksum (addr_prefix a) payload in
  Some (addr_prefix a +:+ ":" +:+ CashAddr.b32encode (payload ++ checksum)).
End Cash.

#[global] Instance cashaddress : CashAddress := {|
  is_valid s := negb (is_None (Cash.parse s));
  from_string := Cash.parse;
  address_type := Cash.lookup_type;
  new_address v payload := Cash.init v payload "";
  cash_address := Cash.render
|}.


(** A CashAddr string for a key hash of 256 zero bytes: twelve characters
    of prefix, 412 of version and payload, eight of checksum. *)
Definition long_address : string :=
  "bitcoincash:" +:+ string_of_list_ascii (repeat "q"%char 412) +:+ "m92wcav0".

(** ** An implementation of the Unicode database

    The general categories of U+0000..U+00FF (Basic Latin and Latin-1
    Supplement) as runs, each with the first code point after it, and of the
    euro sign. The rest of the database is not tabulated: those code points
    are reported as [Cn]. *)
Definition latin1_runs : list (Z * string) :=
  [
    (0x20, "Cc"); (0x21, "Zs"); (0x24, "Po"); (0x25, "Sc"); (0x28, "Po");
    (0x29, "Ps"); (0x2A, "Pe"); (0x2B, "Po"); (0x2C, "Sm"); (0x2D, "Po");
    (0x2E, "Pd"); (0x30, "Po"); (0x3A, "Nd"); (0x3C, "Po"); (0x3F, "Sm");
    (0x41, "Po"); (0x5B, "Lu"); (0x5C, "Ps"); (0x5D, "Po"); (0x5E, "Pe");
    (0x5F, "Sk"); (0x60, "Pc"); (0x61, "Sk"); (0x7B, "Ll"); (0x7C, "Ps");
    (0x7D, "Sm"); (0x7E, "Pe"); (0x7F, "Sm"); (0xA0, "Cc"); (0xA1, "Zs");
    (0xA2, "Po"); (0xA6, "Sc"); (0xA7, "So"); (0xA8, "Po"); (0xA9, "Sk");
    (0xAA, "So"); (0xAB, "Lo"); (0xAC, "Pi"); (0xAD, "Sm"); (0xAE, "Cf");
    (0xAF, "So"); (0xB0, "Sk"); (0xB1, "So"); (0xB2, "Sm"); (0xB4, "No");
    (0xB5, "Sk"); (0xB6, "Ll"); (0xB8, "Po"); (0xB9, "Sk"); (0xBA, "No");
    (0xBB, "Lo"); (0xBC, "Pf"); (0xBF, "No"); (0xC0, "Po"); (0xD7, "Lu");
    (0xD8, "Sm"); (0xDF, "Lu"); (0xF7, "Ll"); (0xF8, "Sm"); (0x100, "Ll")
  ].

Definition latin1_category (c : Z) : string :=
  if c =? 0x20AC then "Sc"
  else match List.find (fun r => c <? r.1) latin1_runs with
       | Some r => r.2
       | None => "Cn"
       end.

#[global] Instance latin1 : UnicodeData := {| category := latin1_category |}.

(** ** An implementation of the URI library

    The generic split of a URI reference (RFC 3986, appendix B), an absent or
    empty scheme, authority or path being [None], and the authority taken
    apart at its [@] and at the [:] before a numeric port. The library also
    checks the characters of the authority, which this split does not. *)
Module Uri.
Fixpoint span (p : Z -> bool) (t : text) : text * text :=
  match t with
  | [] => ([], [])
  | c :: t' => if p c then let r := span p t' in (c :: r.1, r.2) else ([], t)
  end.

Definition is_alpha (c : Z) : bool :=
  ((65 <=? c) && (c <=? 90)) || ((97 <=? c) && (c <=? 122)).
Definition is_digit (c : Z) : bool := (48 <=? c) && (c <=? 57).
(** [+], [-] and [.] besides letters and digits *)
Definition is_scheme_char (c : Z) : bool :=
  is_alpha c || is_digit c || (c =? 43) || (c =? 45) || (c =? 46).

Definition one_of (cs : list Z) (c : Z) : bool := existsb (Z.eqb c) cs.

(** [x or None] *)
Definition or_None (t : text) : option text :=
  match t with
  | [] => None
  | _ :: _ => Some t
  end.

Definition split_scheme (t : text) : option text * text :=
  let r := span is_scheme_char t in
  match r.1, r.2 with
  | c :: _, 58 :: rest => if is_alpha c then (Some r.1, rest) else (None, t)
  | _, _ => (None, t)
  end.

Definition split_authority (t : text) : option text * text :=
  match t with
  | 47 :: 47 :: rest =>
      let r := span (fun c => negb (one_of [47; 63; 35] c)) rest in
      (or_None r.1, r.2)
  | _ => (None, t)
  end.

Definition split_query (t : text) : option text * text :=
  match t with
  | 63 :: rest => let r := span (fun c => negb (c =? 35)) rest in (Some r.1, r.2)
  | _ => (None, t)
  end.

Definition split_fragment (t : text) : option text :=
  match t with
  | 35 :: rest => Some rest
  | _ => None
  end.

(** userinfo, host and port of an authority *)
Definition subauthority (a : text) : option text * option text * option text :=
  let u := span (fun c => negb (c =? 64)) a in
  let '(user, rest) := match u.2 with
                       | 64 :: rest => (Some u.1, rest)
                       | _ => (None, a)
                       end in
  let digits := span is_digit (rev rest) in
  match digits.2 with
  | 58 :: h => (user, or_None (rev h), Some (rev digits.1))
  | _ => (user, or_None rest, None)
  end.

Definition parse (t : text) : uri :=
  let s := split_scheme t in
  let a := split_authority s.2 in
  let p := span (fun c => negb (one_of [63; 35] c)) a.2 in
  let q := split_query p.2 in
  let sub := match a.1 with
             | Some auth => subauthority auth
             | None => (None, None, None)
             end in
  {| scheme := s.1; userinfo := sub.1.1; host := sub.1.2; port := sub.2;
     path := or_None p.1; query := q.1; fragment := split_fragment q.2 |}.
End Uri.

#[global] Instance rfc3986 : Rfc3986 := {| uri_reference t := Ok (Uri.parse t) |}.

(** ** A class hierarchy

    [object] at the root, [ABC] and [Abstract] below it, every operation type
    a direct subclass of [Abstract], and the other classes unrelated to
    them. Field values are integers, strings or [None]. *)
Inductive pyclass : Type :=
  | class_object
  | class_ABC
  | class_Abstract
  | class_operation (name : string)
  | class_other (name : string).

#[global] Instance pyclass_eq_dec : EqDecision pyclass.
Proof. solve_decision. Defined.

Definition py_issubclass (c d : pyclass) : bool :=
  match d, c with
  | class_object, _ => true
  | class_ABC, (class_ABC | class_Abstract | class_operation _) => true
  | class_Abstract, (class_Abstract | class_operation _) => true
  | _, _ => bool_decide (c = d)
  end.

Inductive field : Type :=
  | FNone
  | FInt (n : Z)
  | FStr (s : string).

#[global] Instance field_eq_dec : EqDecision field.
Proof. solve_decision. Defined.

Definition field_eq (a b : field) : bool := bool_decide (a = b).

(** [object()]: an instance of [object] has no [__dict__]. *)
Definition bare_object : object pyclass field :=
  {| class_of := class_object; dict_of := None |}.

(** ** The vocabulary of the specification *)

Definition is_byte (b : Z) : Prop := 0 <= b < 256.

(** The two errors of [deserialize_address] on a buffer that ends early. *)
Definition truncated {A} (r : result A) : Prop :=
  r = Raise (ValueError "" NotEnoughHeader) \/ r = Raise (ValueError "" NotEnoughPayload).

Section AddressVocabulary.
Context `{CashAddress}.

(** The library parses [address] into a version with this code for the
    CashAddr form, and this payload. *)
Definition parses_to (address : string) (code : Z) (payload : list Z) : Prop :=
  exists a m, from_string address = Some a
              /\ address_type "cash" (addr_version a) = Some m
              /\ m.1.2 = code /\ addr_payload a = payload.

(** The library renders the CashAddr string [address] from a version code
    and a payload. *)
Definition renders_to (code : Z) (payload : list Z) (address : string) : Prop :=
  exists a, new_address (VCode code) payload = Some a /\ cash_address a = Some address.
End AddressVocabulary.

(** A value that is present and outside [minval, maxval]. *)
Definition violates (value : option Z) (minval maxval : Z) : Prop :=
  exists v, value = Some v /\ (v < minval \/ v > maxval).

(** The test [is_safe_ascii] applies to each byte. *)
Definition printable (b : Z) : bool :=
  negb ((b <? 32) || (b >? 126) || py_eq (PInt b) (PBytes SEPARATOR)).

(** A validator accepts a URI when [validate] returns without raising. *)
Definition accepts (v : Validator) (u : uri) : bool :=
  match validate_uri v u with
  | Ok _ => true
  | Raise _ => false
  end.

Definition present {A} (o : option A) : Prop := o <> None.

(** The four shapes of an encoded code point. *)
Inductive utf8_shape (c : Z) : bytes -> Prop :=
  | shape_1 : 0 <= c < 0x80 -> utf8_shape c [c]
  | shape_2 : 0x80 <= c < 0x800 -> utf8_shape c [0xC0 + c / 64; 0x80 + c mod 64]
  | shape_3 : 0x800 <= c < 0x10000 -> is_surrogate c = false ->
      utf8_shape c [0xE0 + c / 4096; 0x80 + (c / 64) mod 64; 0x80 + c mod 64]
  | shape_4 : 0x10000 <= c < 0x110000 ->
      utf8_shape c [0xF0 + c / 262144; 0x80 + (c / 4096) mod 64;
                    0x80 + (c / 64) mod 64; 0x80 + c mod 64].

Section EqualityVocabulary.
Context {class value : Type}.
Variable issubclass : class -> class -> bool.
Variable value_eq : value -> value -> bool.

(** The two classes are related by subclassing, in either direction. *)
Definition related (self : operation class value) (other : object class value) : bool :=
  issubclass (class_of other) (op_class self)
  || issubclass (op_class self) (class_of other).

(** Both dictionaries have the same fields, with equal values. *)
Definition same_fields (d1 d2 : gmap string value) : Prop :=
  forall k, match d1 !! k, d2 !! k with
            | Some a, Some b => value_eq a b = true
            | None, None => True
            | _, _ => False
            end.
End EqualityVocabulary.

(** * Properties *)

(** ** Arithmetic of the bit operations *)

Ltac divmod := Z.div_mod_to_equations; lia.

Ltac range_false :=
  match goal with
  | |- context [(?a <=? ?b) && (?c <? ?d)] =>
      replace ((a <=? b) && (c <? d)) with false
        by (symmetry; apply andb_false_iff; rewrite Z.leb_gt, Z.ltb_ge; lia)
  end.

Ltac range_true :=
  match goal with
  | |- context [(?a <=? ?b) && (?c <? ?d)] =>
      replace ((a <=? b) && (c <? d)) with true
        by (symmetry; apply andb_true_intro; rewrite Z.leb_le, Z.ltb_lt; lia)
  end.

(** Bits set above position [k] and bits below it add up. *)
Lemma lor_shiftl_low (x k y : Z) :
  0 <= k -> 0 <= y < 2 ^ k -> Z.lor (Z.shiftl x k) y = x * 2 ^ k + y.
Proof.
  intros Hk Hy.
  rewrite <- Z.shiftl_mul_pow2 by lia.
  symmetry. apply Z.add_nocarry_lor.
  apply Z.bits_inj'. intros n Hn.
  rewrite Z.land_spec, Z.bits_0.
  destruct (Z.lt_ge_cases n k) as [Hlt | Hge].
  - rewrite Z.shiftl_spec_low by lia. reflexivity.
  - destruct (Z.eq_dec y 0) as [-> | Hy0].
    + rewrite Z.bits_0. apply andb_false_r.
    + rewrite (Z.bits_above_log2 y n); [apply andb_false_r | lia |].
      apply Z.log2_lt_pow2; [lia |].
      apply Z.lt_le_trans with (2 ^ k); [lia |].
      apply Z.pow_le_mono_r; lia.
Qed.

Lemma land_ones_offset (k hi q : Z) :
  0 <= k -> 0 <= q < 2 ^ k -> Z.land (hi * 2 ^ k + q) (Z.ones k) = q.
Proof.
  intros Hk Hq. rewrite Z.land_ones by lia.
  rewrite Z.add_comm, Z.mod_add by lia. apply Z.mod_small. lia.
Qed.

(** A property of bytes holds when it holds of each of the 256. *)
Lemma byte_cases (P : Z -> Prop) `{!forall b, Decision (P b)} :
  bool_decide (Forall P (seqZ 0 256)) = true -> forall b, 0 <= b < 256 -> P b.
Proof.
  intros Hall b Hb. apply bool_decide_eq_true_1 in Hall.
  rewrite Forall_forall in Hall. apply Hall. apply elem_of_seqZ. lia.
Qed.

(** The masks that classify a byte, as ranges. *)
Lemma lead_masks (b : Z) :
  0 <= b < 256 ->
  (Z.land b 0xC0 =? 0x80) = ((0x80 <=? b) && (b <? 0xC0))
  /\ (Z.land b 0xE0 =? 0xC0) = ((0xC0 <=? b) && (b <? 0xE0))
  /\ (Z.land b 0xF0 =? 0xE0) = ((0xE0 <=? b) && (b <? 0xF0))
  /\ (Z.land b 0xF8 =? 0xF0) = ((0xF0 <=? b) && (b <? 0xF8)).
Proof.
  revert b. refine (byte_cases _ _). vm_compute. reflexivity.
Qed.

(** ** The UTF-8 codec *)

Lemma utf8_char_1 (c : Z) :
  0 <= c < 0x80 -> utf8_encode_char c = Ok [c].
Proof.
  intros Hc. unfold utf8_encode_char. repeat (case_match; try lia). reflexivity.
Qed.

Lemma utf8_char_2 (c : Z) :
  0x80 <= c < 0x800 ->
  utf8_encode_char c = Ok [0xC0 + c / 64; 0x80 + c mod 64].
Proof.
  intros Hc. unfold utf8_encode_char.
  repeat (case_match; try lia).
  change 0x3F with (Z.ones 6). rewrite Z.land_ones, Z.shiftr_div_pow2 by lia.
  change 0xC0 with (Z.shiftl 3 6). change 0x80 with (Z.shiftl 1 7).
  rewrite !lor_shiftl_low; [reflexivity | ..]; try lia.
  all: change (2 ^ 6) with 64; change (2 ^ 7) with 128; divmod.
Qed.

Lemma utf8_char_3 (c : Z) :
  0x800 <= c < 0x10000 -> is_surrogate c = false ->
  utf8_encode_char c = Ok [0xE0 + c / 4096; 0x80 + (c / 64) mod 64; 0x80 + c mod 64].
Proof.
  intros Hc Hs. unfold utf8_encode_char. rewrite Hs.
  repeat (case_match; try lia).
  change 0x3F with (Z.ones 6). rewrite !Z.land_ones, !Z.shiftr_div_pow2 by lia.
  change 0xE0 with (Z.shiftl 7 5). change 0x80 with (Z.shiftl 1 7).
  rewrite !lor_shiftl_low; [reflexivity | ..]; try lia.
  all: change (2 ^ 6) with 64; change (2 ^ 7) with 128; change (2 ^ 5) with 32;
    change (2 ^ 12) with 4096; divmod.
Qed.

Lemma utf8_char_4 (c : Z) :
  0x10000 <= c < 0x110000 ->
  utf8_encode_char c =
    Ok [0xF0 + c / 262144; 0x80 + (c / 4096) mod 64; 0x80 + (c / 64) mod 64; 0x80 + c mod 64].
Proof.
  intros Hc. unfold utf8_encode_char.
  repeat (case_match; try lia).
  change 0x3F with (Z.ones 6). rewrite !Z.land_ones, !Z.shiftr_div_pow2 by lia.
  change 0xF0 with (Z.shiftl 15 4). change 0x80 with (Z.shiftl 1 7).
  rewrite !lor_shiftl_low; [reflexivity | ..]; try lia.
  all: change (2 ^ 6) with 64; change (2 ^ 7) with 128; change (2 ^ 4) with 16;
    change (2 ^ 12) with 4096; change (2 ^ 18) with 262144; divmod.
Qed.

Lemma utf8_encode_char_shape (c : Z) (bs : bytes) :
  utf8_encode_char c = Ok bs -> utf8_shape c bs.
Proof.
  intros Henc.
  destruct (Z.lt_ge_cases c 0) as [Hneg | H0].
  { unfold utf8_encode_char in Henc.
    destruct (Z.ltb_spec c 0); [discriminate | lia]. }
  destruct (Z.lt_ge_cases c 0x80) as [H1 | H1].
  { rewrite utf8_char_1 in Henc by lia. injection Henc as <-. constructor. lia. }
  destruct (Z.lt_ge_cases c 0x800) as [H2 | H2].
  { rewrite utf8_char_2 in Henc by lia. injection Henc as <-. constructor. lia. }
  destruct (Z.lt_ge_cases c 0x10000) as [H3 | H3].
  { destruct (is_surrogate c) eqn:Hs.
    - unfold utf8_encode_char in Henc. rewrite Hs in Henc.
      repeat (case_match; try lia); discriminate.
    - rewrite utf8_char_3 in Henc by (lia || assumption).
      injection Henc as <-. constructor; [lia | assumption]. }
  destruct (Z.lt_ge_cases c 0x110000) as [H4 | H4].
  { rewrite utf8_char_4 in Henc by lia. injection Henc as <-. constructor. lia. }
  unfold utf8_encode_char in Henc.
  repeat (case_match; try lia); discriminate.
Qed.

Lemma is_continuation_tail (r : Z) :
  0 <= r < 64 -> is_continuation (0x80 + r) = true.
Proof.
  intros Hr. unfold is_continuation.
  destruct (lead_masks (0x80 + r)) as (-> & _); [lia |].
  apply andb_true_intro. split; [apply Z.leb_le | apply Z.ltb_lt]; lia.
Qed.

Lemma push6_tail (acc r : Z) :
  0 <= r < 64 -> push6 acc (0x80 + r) = acc * 64 + r.
Proof.
  intros Hr. unfold push6.
  change 0x3F with (Z.ones 6). rewrite Z.land_ones by lia.
  replace ((0x80 + r) mod 2 ^ 6) with r by (change (2 ^ 6) with 64; divmod).
  rewrite lor_shiftl_low; [reflexivity | lia | change (2 ^ 6) with 64; lia].
Qed.

Lemma utf8_decode_1 (c : Z) (rest : bytes) :
  0 <= c < 0x80 -> utf8_decode (c :: rest) = cons c <$> utf8_decode rest.
Proof.
  intros Hc. cbn [utf8_decode]. range_true. reflexivity.
Qed.

Lemma utf8_decode_2 (q r : Z) (rest : bytes) :
  0 <= q < 32 -> 0 <= r < 64 -> 0x80 <= q * 64 + r ->
  utf8_decode (0xC0 + q :: 0x80 + r :: rest) = cons (q * 64 + r) <$> utf8_decode rest.
Proof.
  intros Hq Hr Hc. cbn [utf8_decode].
  range_false.
  destruct (lead_masks (0xC0 + q)) as (_ & -> & _); [lia |]. range_true.
  change 0x1F with (Z.ones 5). change 0xC0 with (6 * 2 ^ 5).
  rewrite land_ones_offset by (change (2 ^ 5) with 32; lia).
  rewrite push6_tail, is_continuation_tail by lia.
  replace (0x80 <=? q * 64 + r) with true by (symmetry; apply Z.leb_le; lia).
  reflexivity.
Qed.

Lemma utf8_decode_3 (p q r : Z) (rest : bytes) :
  0 <= p < 16 -> 0 <= q < 64 -> 0 <= r < 64 ->
  0x800 <= (p * 64 + q) * 64 + r -> is_surrogate ((p * 64 + q) * 64 + r) = false ->
  utf8_decode (0xE0 + p :: 0x80 + q :: 0x80 + r :: rest)
  = cons ((p * 64 + q) * 64 + r) <$> utf8_decode rest.
Proof.
  intros Hp Hq Hr Hc Hs. cbn [utf8_decode].
  range_false.
  destruct (lead_masks (0xE0 + p)) as (_ & -> & -> & _); [lia |].
  range_false. range_true.
  change 0x0F with (Z.ones 4). change 0xE0 with (14 * 2 ^ 4).
  rewrite land_ones_offset by (change (2 ^ 4) with 16; lia).
  rewrite !push6_tail, !is_continuation_tail by lia.
  rewrite Hs.
  replace (0x800 <=? (p * 64 + q) * 64 + r) with true by (symmetry; apply Z.leb_le; lia).
  reflexivity.
Qed.

Lemma utf8_decode_4 (o p q r : Z) (rest : bytes) :
  0 <= o < 8 -> 0 <= p < 64 -> 0 <= q < 64 -> 0 <= r < 64 ->
  0x10000 <= ((o * 64 + p) * 64 + q) * 64 + r < 0x110000 ->
  utf8_decode (0xF0 + o :: 0x80 + p :: 0x80 + q :: 0x80 + r :: rest)
  = cons (((o * 64 + p) * 64 + q) * 64 + r) <$> utf8_decode rest.
Proof.
  intros Ho Hp Hq Hr Hc. cbn [utf8_decode].
  range_false.
  destruct (lead_masks (0xF0 + o)) as (_ & -> & -> & ->); [lia |].
  range_false. range_false. range_true.
  change 0x07 with (Z.ones 3). change 0xF0 with (30 * 2 ^ 3).
  rewrite land_ones_offset by (change (2 ^ 3) with 8; lia).
  rewrite !push6_tail, !is_continuation_tail by lia.
  replace (0x10000 <=? ((o * 64 + p) * 64 + q) * 64 + r) with true
    by (symmetry; apply Z.leb_le; lia).
  replace (((o * 64 + p) * 64 + q) * 64 + r <? 0x110000) with true
    by (symmetry; apply Z.ltb_lt; lia).
  reflexivity.
Qed.

(** Decoding reads back one encoded code point and goes on with the rest. *)
Lemma utf8_decode_shape (c : Z) (bs rest : bytes) :
  utf8_shape c bs -> utf8_decode (bs ++ rest) = cons c <$> utf8_decode rest.
Proof.
  intros Hshape. destruct Hshape as [H1 | H2 | H3 Hs | H4]; cbn [app].
  - apply utf8_decode_1. lia.
  - rewrite utf8_decode_2; [f_equal; f_equal | ..]; divmod.
  - assert (Hc : c = (c / 4096 * 64 + (c / 64) mod 64) * 64 + c mod 64) by divmod.
    rewrite utf8_decode_3; rewrite <- ?Hc; [reflexivity | try divmod ..].
    assumption.
  - assert (Hc : c = ((c / 262144 * 64 + (c / 4096) mod 64) * 64 + (c / 64) mod 64) * 64
                     + c mod 64) by divmod.
    rewrite utf8_decode_4; rewrite <- ?Hc; [reflexivity | divmod ..].
Qed.

Lemma utf8_shape_bytes (c : Z) (bs : bytes) :
  utf8_shape c bs -> Forall (fun b => 0 <= b < 0xF8) bs.
Proof.
  intros Hshape. destruct Hshape; repeat constructor; divmod.
Qed.

(** Strict decoding inverts encoding. *)
Lemma utf8_roundtrip (t : text) (bs : bytes) :
  utf8_encode t = Ok bs -> utf8_decode bs = Ok t.
Proof.
  revert bs. induction t as [| c t IH]; intros bs Henc; cbn in Henc.
  - injection Henc as <-. reflexivity.
  - destruct (utf8_encode_char c) as [cb |] eqn:Hc; [| discriminate].
    destruct (utf8_encode t) as [tb |] eqn:Ht; [| discriminate].
    cbn in Henc. injection Henc as <-.
    rewrite (utf8_decode_shape c) by (apply utf8_encode_char_shape; assumption).
    rewrite (IH tb) by reflexivity. reflexivity.
Qed.

(** No encoded byte reaches 0xF8. *)
Lemma utf8_encode_bytes (t : text) (bs : bytes) :
  utf8_encode t = Ok bs -> Forall (fun b => 0 <= b < 0xF8) bs.
Proof.
  revert bs. induction t as [| c t IH]; intros bs Henc; cbn in Henc.
  - injection Henc as <-. constructor.
  - destruct (utf8_encode_char c) as [cb |] eqn:Hc; [| discriminate].
    destruct (utf8_encode t) as [tb |] eqn:Ht; [| discriminate].
    cbn in Henc. injection Henc as <-.
    apply Forall_app. split.
    + apply (utf8_shape_bytes c). apply utf8_encode_char_shape. assumption.
    + apply IH. reflexivity.
Qed.

Lemma utf8_encode_nonempty (t : text) (bs : bytes) :
  utf8_encode t = Ok bs -> t <> [] -> bs <> [].
Proof.
  destruct t as [| c t]; [congruence |]. intros Henc _. cbn in Henc.
  destruct (utf8_encode_char c) as [cb |] eqn:Hc; [| discriminate].
  destruct (utf8_encode t) as [tb |]; [| discriminate].
  cbn in Henc. injection Henc as <-.
  apply utf8_encode_char_shape in Hc. destruct Hc; discriminate.
Qed.

Example utf8_euro : utf8_encode [0x20AC] = Ok [0xE2; 0x82; 0xAC].
Proof. reflexivity. Qed.

Example utf8_euro_back : utf8_decode [0xE2; 0x82; 0xAC] = Ok [0x20AC].
Proof. reflexivity. Qed.

Example utf8_overlong : utf8_decode [0xC0; 0x80] = Raise UnicodeDecodeError.
Proof. reflexivity. Qed.

Example utf8_max : utf8_decode [0xF4; 0x8F; 0xBF; 0xBF] = Ok [0x10FFFF].
Proof. reflexivity. Qed.

Example utf8_beyond : utf8_decode [0xF4; 0x90; 0x80; 0x80] = Raise UnicodeDecodeError.
Proof. reflexivity. Qed.

Example utf8_lone_surrogate : utf8_encode [0xD800] = Raise UnicodeEncodeError.
Proof. reflexivity. Qed.

(** ** The 'ascii' codec *)

Lemma ascii_encode_ok (t : text) (bs : bytes) :
  ascii_encode t = Ok bs <-> bs = t /\ Forall (fun c => 0 <= c < 128) t.
Proof.
  revert bs. induction t as [| c t IH]; intros bs; cbn.
  - split; [intros [= <-]; auto | intros [-> _]; reflexivity].
  - unfold ascii_encode_char.
    destruct (Z.leb_spec 0 c), (Z.ltb_spec c 128); cbn;
      try (split; [discriminate | intros [_ Hall]; inversion Hall; lia]).
    destruct (ascii_encode t) as [tb |] eqn:Ht; cbn.
    + destruct (IH tb) as [IH1 _]. destruct (IH1 eq_refl) as [-> Hall].
      split; [intros [= <-]; split; [reflexivity | constructor; [lia | assumption]]
             | intros [-> _]; reflexivity].
    + split; [discriminate |]. intros [-> Hall]. inversion Hall; subst.
      destruct (IH t) as [_ IH2]. discriminate IH2. auto.
Qed.

Lemma ascii_encode_raises (t : text) (e : exn) :
  ascii_encode t = Raise e -> e = UnicodeEncodeError.
Proof.
  induction t as [| c t IH]; cbn; [discriminate |].
  unfold ascii_encode_char. destruct ((0 <=? c) && (c <? 128)); cbn.
  - destruct (ascii_encode t); cbn; [discriminate |]. intros [= <-]. apply IH. reflexivity.
  - intros [= <-]. reflexivity.
Qed.

(** ** Lengths, slices and search *)

Lemma len_app {A} (l1 l2 : list A) : len (l1 ++ l2) = len l1 + len l2.
Proof. unfold len. rewrite length_app. lia. Qed.

Lemma len_nonneg {A} (l : list A) : 0 <= len l.
Proof. unfold len. lia. Qed.

Lemma len_cons {A} (x : A) (l : list A) : len (x :: l) = len l + 1.
Proof. unfold len. cbn [length]. lia. Qed.

Lemma slice_within {A} (data : list A) (lo hi : Z) :
  0 <= lo <= hi -> hi <= len data ->
  slice data lo hi = firstn (Z.to_nat (hi - lo)) (skipn (Z.to_nat lo) data).
Proof.
  intros Hlo Hhi. unfold slice, slice_index.
  destruct (Z.ltb_spec lo 0); [lia |]. destruct (Z.ltb_spec hi 0); [lia |].
  rewrite !Z.min_l by lia. reflexivity.
Qed.

Lemma slice_from_within {A} (data : list A) (lo : Z) :
  0 <= lo <= len data -> slice_from data lo = skipn (Z.to_nat lo) data.
Proof.
  intros Hlo. unfold slice_from. rewrite slice_within by lia.
  apply firstn_all2. rewrite length_skipn. unfold len in *. lia.
Qed.

Lemma slice_to_app {A} (l1 l2 : list A) : slice_to (l1 ++ l2) (len l1) = l1.
Proof.
  unfold slice_to. pose proof (len_nonneg l1). pose proof (len_nonneg l2).
  rewrite slice_within by (rewrite ?len_app; lia).
  rewrite Z.sub_0_r. unfold len. rewrite Nat2Z.id. cbn [Z.to_nat skipn].
  apply take_app_length.
Qed.

Lemma slice_to_all {A} (l : list A) : slice_to l (len l) = l.
Proof.
  rewrite <- (app_nil_r l) at 1. apply slice_to_app.
Qed.

Lemma slice_version {A} (v n : A) (body : list A) : slice (v :: n :: body) 0 1 = [v].
Proof.
  pose proof (len_nonneg body).
  rewrite slice_within by (rewrite ?len_cons; lia). reflexivity.
Qed.

Lemma slice_length {A} (v n : A) (body : list A) : slice (v :: n :: body) 1 2 = [n].
Proof.
  pose proof (len_nonneg body).
  rewrite slice_within by (rewrite ?len_cons; lia). reflexivity.
Qed.

Lemma slice_payload {A} (v n : A) (body : list A) (k : Z) :
  0 <= k <= len body -> slice (v :: n :: body) 2 (k + 2) = firstn (Z.to_nat k) body.
Proof.
  intros Hk. rewrite slice_within by (rewrite ?len_cons; lia).
  replace (k + 2 - 2) with k by lia. reflexivity.
Qed.

Lemma slice_remaining {A} (v n : A) (body : list A) (k : Z) :
  0 <= k <= len body -> slice_from (v :: n :: body) (2 + k) = skipn (Z.to_nat k) body.
Proof.
  intros Hk. rewrite slice_from_within by (rewrite ?len_cons; lia).
  replace (Z.to_nat (2 + k)) with (S (S (Z.to_nat k))) by lia. reflexivity.
Qed.

Lemma find_from_cons (i b : Z) (data : bytes) :
  find_from i (b :: data) SEPARATOR
  = if 0xFF =? b then i else find_from (i + 1) data SEPARATOR.
Proof.
  unfold SEPARATOR. cbn [find_from starts_with].
  destruct data; rewrite andb_true_r; reflexivity.
Qed.

Lemma find_from_absent (i : Z) (data : bytes) :
  Forall (fun b => b <> 0xFF) data -> find_from i data SEPARATOR = -1.
Proof.
  intros Hno. revert i. induction Hno as [| b data Hb _ IH]; intros i.
  - reflexivity.
  - rewrite find_from_cons. destruct (Z.eqb_spec 0xFF b); [congruence | apply IH].
Qed.

Lemma find_from_first (i : Z) (bs rest : bytes) :
  Forall (fun b => b <> 0xFF) bs ->
  find_from i (bs ++ SEPARATOR ++ rest) SEPARATOR = i + len bs.
Proof.
  intros Hno. revert i. induction Hno as [| b bs Hb _ IH]; intros i.
  - cbn [app]. unfold SEPARATOR at 1. cbn [app]. rewrite find_from_cons.
    rewrite Z.eqb_refl. unfold len. cbn. lia.
  - cbn [app]. rewrite find_from_cons.
    destruct (Z.eqb_spec 0xFF b); [congruence |].
    rewrite IH. rewrite len_cons. lia.
Qed.

Lemma no_separator_below (bs : bytes) :
  Forall (fun b => 0 <= b < 0xF8) bs -> Forall (fun b => b <> 0xFF) bs.
Proof. intros Hb. eapply Forall_impl; [exact Hb |]. cbn. intros b ?. lia. Qed.

Lemma from_bytes_one (b : Z) : from_bytes [b] = b.
Proof. unfold from_bytes. cbn. lia. Qed.

Lemma to_bytes_one (x : Z) : 0 <= x < 256 -> to_bytes x 1 = Ok [x].
Proof.
  intros Hx. unfold to_bytes.
  destruct (Z.ltb_spec x 0); [lia |].
  destruct (Z.leb_spec (256 ^ Z.of_nat 1) x) as [Hge |]; [cbn in Hge; lia |].
  cbn. f_equal. f_equal. apply Z.mod_small. lia.
Qed.

Lemma bytes_of_list_ok (l : list Z) : Forall is_byte l -> bytes_of_list l = Ok l.
Proof.
  intros Hall. unfold bytes_of_list.
  replace (forallb _ l) with true; [reflexivity |].
  symmetry. apply forallb_forall. intros b Hb.
  rewrite Forall_forall in Hall. apply list_elem_of_In, Hall in Hb. unfold is_byte in Hb.
  apply andb_true_intro. split; [apply Z.leb_le | apply Z.ltb_lt]; lia.
Qed.

(** ** The text framer *)

(** A separator at the head of the buffer: no field. *)
Lemma read_text_leading_separator (rest : bytes) (encoding : option codec) :
  read_text (SEPARATOR ++ rest) encoding = Ok (None, 0, false).
Proof.
  unfold read_text, bytes_find, SEPARATOR. cbn [app]. rewrite find_from_cons.
  reflexivity.
Qed.

(** Without a separator the whole buffer is the field, and it is the last. *)
Lemma read_text_last_field (data : bytes) (encoding : option codec) :
  Forall (fun b => b <> 0xFF) data ->
  read_text data encoding
  = (t ← decode (default ENCODING encoding) data; Ok (Some t, len data, true)).
Proof.
  intros Hno. unfold read_text, bytes_find. rewrite find_from_absent by assumption.
  cbn [Z.ltb Z.compare]. rewrite slice_to_all. destruct encoding; reflexivity.
Qed.

(** A separator after a field that is not empty: the field, unfinished. *)
Lemma read_text_separated (bs rest : bytes) (encoding : option codec) :
  Forall (fun b => b <> 0xFF) bs -> bs <> [] ->
  read_text (bs ++ SEPARATOR ++ rest) encoding
  = (t ← decode (default ENCODING encoding) bs; Ok (Some t, len bs, false)).
Proof.
  intros Hno Hne. unfold read_text, bytes_find. rewrite find_from_first by assumption.
  rewrite Z.add_0_l.
  assert (0 < len bs) by (destruct bs; [congruence | rewrite len_cons; unfold len; lia]).
  destruct (Z.ltb_spec (len bs) 0); [lia |].
  destruct (Z.eqb_spec (len bs) 0); [lia |].
  rewrite slice_to_app. destruct encoding; reflexivity.
Qed.

(** The three cases of [read_text]: no separator, a separator at the head,
    and a separator after a field that is not empty. In each the first
    component is the decoded prefix before the first separator, and the flag
    says that no separator was found. *)
Theorem read_text_cases (data rest : bytes) (encoding : option codec) :
  (Forall (fun b => b <> 0xFF) data ->
     read_text data encoding
     = (t ← decode (default ENCODING encoding) data; Ok (Some t, len data, true)))
  /\ read_text (SEPARATOR ++ rest) encoding = Ok (None, 0, false)
  /\ (Forall (fun b => b <> 0xFF) data -> data <> [] ->
       read_text (data ++ SEPARATOR ++ rest) encoding
       = (t ← decode (default ENCODING encoding) data; Ok (Some t, len data, false))).
Proof.
  split; [apply read_text_last_field |].
  split; [apply read_text_leading_separator | apply read_text_separated].
Qed.

Section Framing.
Context `{UnicodeData}.

Lemma is_safe_unicode_encodes (t : text) (forbidden : list string) (b : bool) :
  is_safe_unicode t forbidden = Ok b -> exists bs, utf8_encode t = Ok bs.
Proof.
  unfold is_safe_unicode. cbn [encode ENCODING].
  destruct (utf8_encode t) as [bs |]; [eauto | discriminate].
Qed.

(** C1, as amended. For a text [t] that [is_safe_unicode] accepts,
    [read_text] on the bytes of [t], the separator and whatever follows it
    returns [t] itself and the length of its encoding, so that the
    separator is not consumed; the flag is [False], since a separator was
    found. The empty text is not told apart from an absent field: the
    result is then [(None, 0, False)]. *)
Theorem read_text_framing (t : text) (forbidden : list string) (bs rest : bytes) :
  is_safe_unicode t forbidden = Ok true ->
  encode ENCODING t = Ok bs ->
  read_text (bs ++ SEPARATOR ++ rest) None
  = match t with
    | [] => Ok (None, 0, false)
    | _ :: _ => Ok (Some t, len bs, false)
    end.
Proof.
  intros _ Henc. cbn [encode ENCODING] in Henc.
  destruct t as [| c t].
  - cbn in Henc. injection Henc as <-. apply read_text_leading_separator.
  - rewrite read_text_separated.
    + cbn [default decode ENCODING]. rewrite (utf8_roundtrip _ _ Henc). reflexivity.
    + apply no_separator_below. eapply utf8_encode_bytes. eassumption.
    + eapply utf8_encode_nonempty; [eassumption | discriminate].
Qed.
End Framing.

(** The text "hé€", one, two and three bytes long, followed by the separator
    and one more byte. *)
Lemma read_text_framing_witness :
  read_text ([104; 0xC3; 0xA9; 0xE2; 0x82; 0xAC] ++ SEPARATOR ++ [65]) None
  = Ok (Some [104; 0xE9; 0x20AC], 6, false).
Proof.
  exact (read_text_framing (H := latin1) [104; 0xE9; 0x20AC] ["C"; "Z"]%string
           [104; 0xC3; 0xA9; 0xE2; 0x82; 0xAC] [65] eq_refl eq_refl).
Defined.

(** C1 as the specification has it fails on the text "A": it is accepted, and
    the flag that comes back with it is [False]. *)
Lemma read_text_flag_counterexample :
  is_safe_unicode (H := latin1) [65] ["C"]%string = Ok true
  /\ encode ENCODING [65] = Ok [65]
  /\ read_text ([65] ++ SEPARATOR) None = Ok (Some [65], 1, false)
  /\ read_text ([65] ++ SEPARATOR) None <> Ok (Some [65], len [65], true).
Proof. repeat split. discriminate. Qed.

(** C2, as amended. On the empty buffer [read_text] returns the empty text,
    not [None], with nothing consumed and the flag [True], whatever the
    encoding. *)
Theorem read_text_empty (encoding : option codec) :
  read_text [] encoding = Ok (Some [], 0, true).
Proof. destruct encoding as [[] |]; reflexivity. Qed.

(** C2 as the specification has it: the text component is not [None]. *)
Lemma read_text_empty_counterexample : read_text [] None <> Ok (None, 0, true).
Proof. discriminate. Qed.

(** ** The classifiers *)

Lemma forallb_printable (bs : bytes) :
  negb (existsb (fun b => (b <? 32) || (b >? 126) || py_eq (PInt b) (PBytes SEPARATOR)) bs)
  = forallb printable bs.
Proof.
  induction bs as [| b bs IH]; [reflexivity |]. cbn [existsb forallb].
  rewrite negb_orb, IH. reflexivity.
Qed.

Lemma printable_range (b : Z) : printable b = true <-> 32 <= b <= 126.
Proof.
  unfold printable, py_eq. rewrite orb_false_r, negb_true_iff, orb_false_iff.
  rewrite Z.ltb_ge, Z.gtb_ltb, Z.ltb_ge. lia.
Qed.

(** [is_safe_ascii] as a total function of the encoding. *)
Lemma is_safe_ascii_eq (t : text) :
  is_safe_ascii t
  = Ok (match ascii_encode t with
        | Ok bs => forallb printable bs
        | Raise _ => false
        end).
Proof.
  unfold is_safe_ascii. cbn [encode].
  destruct (ascii_encode t) as [bs | e] eqn:Henc; cbn.
  - rewrite <- forallb_printable. destruct (existsb _ bs); reflexivity.
  - apply ascii_encode_raises in Henc as ->. reflexivity.
Qed.

(** C9. [is_safe_ascii] answers [True] exactly when the text encodes in
    ASCII and every byte lies in [32, 126] and is not the separator value; a
    text with a character outside ASCII gets [False]; and the function
    always returns, it never raises. *)
Theorem is_safe_ascii_spec (t : text) :
  (is_safe_ascii t = Ok true <->
     exists bs, encode Ascii7 t = Ok bs /\ Forall (fun b => 32 <= b <= 126 /\ b <> 0xFF) bs)
  /\ (Exists (fun c => ~ 0 <= c < 128) t -> is_safe_ascii t = Ok false)
  /\ (exists r, is_safe_ascii t = Ok r).
Proof.
  rewrite is_safe_ascii_eq. cbn [encode]. split; [| split].
  - split.
    + intros [= Hok]. destruct (ascii_encode t) as [bs |]; [| discriminate].
      exists bs. split; [reflexivity |].
      rewrite forallb_forall in Hok. apply Forall_forall. intros b Hb.
      apply list_elem_of_In in Hb. apply Hok, printable_range in Hb. lia.
    + intros (bs & -> & Hall). f_equal. apply forallb_forall. intros b Hb.
      apply list_elem_of_In in Hb.
      rewrite Forall_forall in Hall. apply printable_range. apply Hall in Hb. lia.
  - intros Hex. destruct (ascii_encode t) as [bs |] eqn:Henc; [| reflexivity].
    apply ascii_encode_ok in Henc as [_ Hall].
    apply Exists_exists in Hex as (c & Hin & Hc).
    rewrite Forall_forall in Hall. apply Hall in Hin. contradiction.
  - eauto.
Qed.

Example is_safe_ascii_plain : is_safe_ascii (text_of_string "Hello, world") = Ok true.
Proof. reflexivity. Qed.

Example is_safe_ascii_newline : is_safe_ascii [72; 10] = Ok false.
Proof. reflexivity. Qed.

Example is_safe_ascii_accent : is_safe_ascii [72; 0xE9] = Ok false.
Proof. reflexivity. Qed.

Section Separator.
Context `{UnicodeData}.

(** C3. When [is_safe_ascii] accepts a text, its ASCII encoding holds no
    byte 0xFF; when [is_safe_unicode] accepts it, for whatever forbidden
    categories, its UTF-8 encoding holds none. *)
Theorem separator_never_encoded (t : text) :
  (is_safe_ascii t = Ok true ->
     exists bs, encode Ascii7 t = Ok bs /\ 0xFF ∉ bs)
  /\ (forall forbidden, is_safe_unicode t forbidden = Ok true ->
     exists bs, encode Utf8 t = Ok bs /\ 0xFF ∉ bs).
Proof.
  split.
  - rewrite is_safe_ascii_eq. cbn [encode]. intros [= Hok].
    destruct (ascii_encode t) as [bs |]; [| discriminate].
    exists bs. split; [reflexivity |]. intros Hin.
    rewrite forallb_forall in Hok. apply list_elem_of_In in Hin.
    apply Hok, printable_range in Hin. lia.
  - intros forbidden Hsafe.
    destruct (is_safe_unicode_encodes _ _ _ Hsafe) as [bs Henc].
    exists bs. split; [exact Henc |]. intros Hin.
    pose proof (utf8_encode_bytes _ _ Henc) as Hall.
    rewrite Forall_forall in Hall. apply Hall in Hin. lia.
Qed.
End Separator.

(** "Hi" is accepted by both classifiers. *)
Lemma separator_never_encoded_witness :
  (is_safe_ascii [72; 105] = Ok true
   /\ exists bs, encode Ascii7 [72; 105] = Ok bs /\ 0xFF ∉ bs)
  /\ (is_safe_unicode (H := latin1) [72; 105] ["C"]%string = Ok true
      /\ exists bs, encode Utf8 [72; 105] = Ok bs /\ 0xFF ∉ bs).
Proof.
  split; (split; [reflexivity |]).
  - exact (proj1 (separator_never_encoded (H := latin1) [72; 105]) eq_refl).
  - exact (proj2 (separator_never_encoded (H := latin1) [72; 105]) ["C"]%string eq_refl).
Defined.

(** ** The URI checks *)

Lemma text_eqb_eq (a b : text) : text_eqb a b = true <-> a = b.
Proof. unfold text_eqb. apply bool_decide_eq_true. Qed.

Lemma accepts_link_1 (u : uri) :
  accepts link_uri_validator_1 u = true <-> present (scheme u) /\ present (host u).
Proof.
  unfold accepts, validate_uri, present. cbn.
  destruct (scheme u), (host u); cbn; split; intros; try discriminate; try tauto;
    split; congruence.
Qed.

Lemma accepts_link_2 (u : uri) :
  accepts link_uri_validator_2 u = true <-> present (scheme u) /\ present (path u).
Proof.
  unfold accepts, validate_uri, present. cbn.
  destruct (scheme u), (path u); cbn; split; intros; try discriminate; try tauto;
    split; congruence.
Qed.

Lemma accepts_src_1 (u : uri) :
  accepts src_uri_validator_1 u = true
  <-> (scheme u = Some (text_of_string "http") \/ scheme u = Some (text_of_string "https"))
      /\ present (host u) /\ present (path u).
Proof.
  unfold accepts, validate_uri, present. cbn -[text_of_string text_eqb].
  destruct (scheme u) as [s |], (host u), (path u); cbn -[text_of_string text_eqb];
    try (split; [discriminate | intros ([E | E] & ? & ?); congruence]).
  destruct (text_eqb s (text_of_string "http")) eqn:E1; cbn -[text_of_string text_eqb].
  { apply text_eqb_eq in E1 as ->. split; [intros _ | reflexivity].
    repeat split; auto; congruence. }
  destruct (text_eqb s (text_of_string "https")) eqn:E2; cbn -[text_of_string text_eqb].
  { apply text_eqb_eq in E2 as ->. split; [intros _ | reflexivity].
    repeat split; auto; congruence. }
  split; [discriminate |].
  intros ([[= ->] | [= ->]] & _);
    [rewrite (proj2 (text_eqb_eq _ _) eq_refl) in E1
    | rewrite (proj2 (text_eqb_eq _ _) eq_refl) in E2]; discriminate.
Qed.

Lemma accepts_src_2 (u : uri) :
  accepts src_uri_validator_2 u = true
  <-> scheme u = Some (text_of_string "data") /\ present (path u).
Proof.
  unfold accepts, validate_uri, present. cbn -[text_of_string text_eqb].
  destruct (scheme u) as [s |], (path u); cbn -[text_of_string text_eqb];
    try (split; [discriminate | intros (E & ?); congruence]).
  destruct (text_eqb s (text_of_string "data")) eqn:E1; cbn -[text_of_string text_eqb].
  { apply text_eqb_eq in E1 as ->. split; [intros _ | reflexivity].
    repeat split; auto; congruence. }
  split; [discriminate |].
  intros ([= ->] & _). rewrite (proj2 (text_eqb_eq _ _) eq_refl) in E1. discriminate.
Qed.

Section UriTiers.
Context `{Rfc3986}.

(** The tiers of a check: its second validator counts only when the first
    has raised, and an exception of either is no more than a failed tier. *)
Lemma tiers_accept (v1 v2 : Validator) (u : uri) :
  try_except (_ ← validate_uri v1 u; Ok true) is_Exception
    (try_except (_ ← validate_uri v2 u; Ok true) is_Exception (Ok false))
  = Ok (if accepts v1 u then true else accepts v2 u).
Proof.
  unfold accepts.
  destruct (validate_uri v1 u) as [[] |]; cbn; [reflexivity |].
  destruct (validate_uri v2 u) as [[] |]; reflexivity.
Qed.

Lemma is_link_uri_safe (t : text) (u : uri) :
  is_safe_ascii t = Ok true -> uri_reference t = Ok u ->
  is_link_uri t
  = Ok (if accepts link_uri_validator_1 u then true else accepts link_uri_validator_2 u).
Proof.
  intros Hs Hu. unfold is_link_uri. rewrite Hs. cbn. rewrite Hu. cbn.
  apply tiers_accept.
Qed.

Lemma is_src_uri_safe (t : text) (u : uri) :
  is_safe_ascii t = Ok true -> uri_reference t = Ok u ->
  is_src_uri t
  = Ok (if accepts src_uri_validator_1 u then true else accepts src_uri_validator_2 u).
Proof.
  intros Hs Hu. unfold is_src_uri. rewrite Hs. cbn. rewrite Hu. cbn.
  apply tiers_accept.
Qed.

(** C8. Both checks answer [False] for a text that is not safe ASCII. For
    a safe text with URI [u], each is its first tier or else its second. A
    URI with a scheme and a host passes [is_link_uri], whatever the
    scheme; one with the scheme "ftp" and a path passes [is_link_uri] and
    fails [is_src_uri]; and [is_src_uri] accepts exactly a scheme "http"
    or "https" with host and path, or the scheme "data" with a path. *)
Theorem uri_tiers (t : text) :
  (is_safe_ascii t = Ok false -> is_link_uri t = Ok false /\ is_src_uri t = Ok false)
  /\ (forall u, is_safe_ascii t = Ok true -> uri_reference t = Ok u ->
        is_link_uri t
          = Ok (if accepts link_uri_validator_1 u then true
                else accepts link_uri_validator_2 u)
        /\ is_src_uri t
          = Ok (if accepts src_uri_validator_1 u then true
                else accepts src_uri_validator_2 u)
        /\ (present (scheme u) -> present (host u) -> is_link_uri t = Ok true)
        /\ (scheme u = Some (text_of_string "ftp") -> present (path u) ->
              is_link_uri t = Ok true /\ is_src_uri t = Ok false)
        /\ (is_src_uri t = Ok true <->
              ((scheme u = Some (text_of_string "http")
                \/ scheme u = Some (text_of_string "https"))
               /\ present (host u) /\ present (path u))
              \/ (scheme u = Some (text_of_string "data") /\ present (path u)))).
Proof.
  split.
  - intros Hs. unfold is_link_uri, is_src_uri. rewrite Hs. split; reflexivity.
  - intros u Hs Hu.
    rewrite (is_link_uri_safe t u), (is_src_uri_safe t u) by assumption.
    pose proof (accepts_link_1 u) as L1. pose proof (accepts_link_2 u) as L2.
    pose proof (accepts_src_1 u) as S1. pose proof (accepts_src_2 u) as S2.
    split; [reflexivity |]. split; [reflexivity |].
    split; [| split].
    + intros Hsch Hhost. destruct L1 as [_ ->]; auto.
    + intros Hftp Hpath.
      assert (Hp : present (scheme u)) by (unfold present; congruence).
      split.
      * destruct (accepts link_uri_validator_1 u); [reflexivity |].
        destruct L2 as [_ ->]; auto.
      * destruct (accepts src_uri_validator_1 u).
        { destruct S1 as [([E | E] & _) _]; [reflexivity | |];
            rewrite Hftp in E; discriminate E. }
        destruct (accepts src_uri_validator_2 u); [| reflexivity].
        destruct S2 as [(E & _) _]; [reflexivity |].
        rewrite Hftp in E. discriminate E.
    + destruct (accepts src_uri_validator_1 u).
      { split; [intros _; left; apply S1; reflexivity | reflexivity]. }
      destruct (accepts src_uri_validator_2 u).
      { split; [intros _; right; apply S2; reflexivity | reflexivity]. }
      split; [discriminate |].
      intros [C | C]; [apply S1 in C | apply S2 in C]; discriminate.
Qed.
End UriTiers.

(** "ftp:/pub/file": a scheme and a path, no host. *)
Lemma uri_tiers_witness :
  is_safe_ascii (text_of_string "ftp:/pub/file") = Ok true
  /\ scheme (Uri.parse (text_of_string "ftp:/pub/file")) = Some (text_of_string "ftp")
  /\ host (Uri.parse (text_of_string "ftp:/pub/file")) = None
  /\ is_link_uri (text_of_string "ftp:/pub/file") = Ok true
  /\ is_src_uri (text_of_string "ftp:/pub/file") = Ok false.
Proof.
  split; [reflexivity |]. split; [reflexivity |]. split; [reflexivity |].
  refine (proj1 (proj2 (proj2 (proj2 (proj2 (uri_tiers (H := rfc3986)
            (text_of_string "ftp:/pub/file")) _ eq_refl eq_refl)))) eq_refl _).
  discriminate.
Defined.

Example link_with_host :
  is_link_uri (text_of_string "gopher://example.com") = Ok true.
Proof. reflexivity. Qed.

Example src_needs_path :
  is_src_uri (text_of_string "http://example.com") = Ok false
  /\ is_src_uri (text_of_string "http://example.com/") = Ok true
  /\ is_src_uri (text_of_string "data:text/plain,hi") = Ok true.
Proof. repeat split. Qed.

(** ** The range validators *)

Lemma validate_range_cases (name : string) (value : option Z) (minval maxval : Z)
    (optional : bool) :
  (optional = false /\ violates value minval maxval
   /\ validate_range name value minval maxval optional
      = Raise (ValueError name (OutOfRange false)))
  \/ (~ (optional = false /\ violates value minval maxval)
      /\ validate_range name value minval maxval optional = Ok value).
Proof.
  unfold validate_range, violates.
  destruct value as [v |]; [| right; split; [intros (_ & v & [=] & _) | reflexivity]].
  destruct optional; cbn [negb andb].
  { right. split; [intros ([=] & _) | reflexivity]. }
  destruct (Z.ltb_spec v minval); cbn [orb].
  { left. repeat split. exists v. split; [reflexivity | lia]. }
  destruct (Z.gtb_spec v maxval).
  { left. repeat split. exists v. split; [reflexivity | lia]. }
  right. split; [| reflexivity]. intros (_ & v' & [= <-] & Hv). lia.
Qed.

(** C7. [validate_range] raises its out-of-range error exactly when
    [optional] is false and the value is present and below [minval] or above
    [maxval]; in every other case it returns the value as it is, in
    particular when [optional] is true or the value is [None]. *)
Theorem validate_range_spec (name : string) (value : option Z) (minval maxval : Z)
    (optional : bool) :
  (validate_range name value minval maxval optional
     = Raise (ValueError name (OutOfRange false))
   <-> optional = false /\ violates value minval maxval)
  /\ (~ (optional = false /\ violates value minval maxval) ->
        validate_range name value minval maxval optional = Ok value)
  /\ (optional = true \/ value = None ->
        validate_range name value minval maxval optional = Ok value).
Proof.
  destruct (validate_range_cases name value minval maxval optional)
    as [(Ho & Hv & ->) | (Hn & ->)].
  - split; [tauto |]. split; [tauto |].
    destruct Hv as (v & -> & _). intros [-> | [=]]. discriminate.
  - split; [split; [discriminate | tauto] |]. split; reflexivity.
Qed.

Example validate_range_at_minval :
  validate_range "x" (Some 3) 3 9 false = Ok (Some 3)
  /\ validate_range "x" (Some 2) 3 9 false = Raise (ValueError "x" (OutOfRange false))
  /\ validate_range "x" None 3 9 true = Ok None.
Proof. repeat split. Qed.

(** C6. The bounds of [validate_range_bytesize] do not depend on the
    [signed] flag: for a width of [size] bytes they are those of the signed
    two's-complement range. With one byte, 127 passes and is returned, 128
    is out of range, and 0 with [allow_zero=False] is refused as zero. *)
Theorem validate_range_bytesize_signed_bounds :
  (forall name value size optional allow_zero signed signed',
      validate_range_bytesize name value size optional allow_zero signed
      = validate_range_bytesize name value size optional allow_zero signed')
  /\ (forall name v size allow_zero signed,
        0 < size -> (v <> 0 \/ allow_zero = true) ->
        validate_range_bytesize name (Some v) size false allow_zero signed
        = if (v <? - 2 ^ (8 * size - 1)) || (v >? 2 ^ (8 * size - 1) - 1)
          then Raise (ValueError name (OutOfRange (negb allow_zero)))
          else Ok (Some v))
  /\ (forall signed, validate_range_bytesize "x" (Some 127) 1 false true signed = Ok (Some 127))
  /\ (forall signed, validate_range_bytesize "x" (Some 128) 1 false true signed
        = Raise (ValueError "x" (OutOfRange false)))
  /\ (forall signed optional, validate_range_bytesize "x" (Some 0) 1 optional false signed
        = Raise (ValueError "x" MayNotBeZero)).
Proof.
  repeat split; try reflexivity.
  intros name v size allow_zero signed _ Hz. unfold validate_range_bytesize.
  destruct (bool_decide_reflect (Some v = Some 0)) as [[= ->] | Hne].
  - destruct Hz as [Hz | ->]; [congruence |]. reflexivity.
  - cbn [andb negb]. reflexivity.
Qed.

Example bytesize_negative_end :
  validate_range_bytesize "x" (Some (-128)) 1 false true false = Ok (Some (-128))
  /\ validate_range_bytesize "x" (Some 255) 1 false true false
     = Raise (ValueError "x" (OutOfRange false)).
Proof. repeat split. Qed.

(** ** The address codec *)

Section AddressCodec.
Context `{CashAddress}.

Lemma deserialize_address_short (data : bytes) :
  len data < 2 -> deserialize_address data = Raise (ValueError "" NotEnoughHeader).
Proof.
  intros Hlen. unfold deserialize_address.
  destruct (Z.ltb_spec (len data) 2); [reflexivity | lia].
Qed.

(** A buffer with its two header bytes: the length byte decides. *)
Lemma deserialize_address_header (v n : Z) (body : bytes) :
  0 <= n ->
  deserialize_address (v :: n :: body)
  = if len body <? n then Raise (ValueError "" NotEnoughPayload)
    else
      a ← lib (new_address (VCode v) (firstn (Z.to_nat n) body));
      address ← lib (cash_address a);
      Ok (address, skipn (Z.to_nat n) body).
Proof.
  intros Hn. unfold deserialize_address.
  pose proof (len_nonneg body).
  destruct (Z.ltb_spec (len (v :: n :: body)) 2); [rewrite !len_cons in *; lia |].
  rewrite slice_version, slice_length, !from_bytes_one, !len_cons.
  destruct (Z.ltb_spec (len body + 1 + 1) (n + 2)), (Z.ltb_spec (len body) n);
    try lia; [reflexivity |].
  rewrite slice_payload, slice_remaining by lia. reflexivity.
Qed.

(** C5, as amended. [deserialize_address] fails with one of its two
    truncation errors exactly when the buffer has fewer than 2 bytes or
    fewer than [length + 2], [length] being its second byte. Otherwise its
    result is that of the address library on the version byte and the
    [length] bytes of payload: the rendered address together with the
    bytes from [2 + length] on, or the library's own error when it cannot
    render them. *)
Theorem deserialize_address_spec (data : bytes) :
  Forall is_byte data ->
  (truncated (deserialize_address data)
     <-> len data < 2 \/ len data < nth 1 data 0 + 2)
  /\ (~ (len data < 2 \/ len data < nth 1 data 0 + 2) ->
       deserialize_address data
       = (a ← lib (new_address (VCode (nth 0 data 0))
                     (firstn (Z.to_nat (nth 1 data 0)) (skipn 2 data)));
          address ← lib (cash_address a);
          Ok (address, skipn (2 + Z.to_nat (nth 1 data 0)) data))).
Proof.
  intros Hbytes.
  destruct data as [| v [| n body]].
  - unfold truncated, len. cbn. split; [split; [lia | auto] | lia].
  - unfold truncated, len. cbn. split; [split; [lia | auto] | lia].
  - assert (Hn : 0 <= n)
      by (inversion Hbytes as [| ? ? _ Hb]; inversion Hb; unfold is_byte in *; lia).
    rewrite deserialize_address_header by assumption.
    cbn [nth skipn Nat.add]. rewrite !len_cons.
    pose proof (len_nonneg body).
    destruct (Z.ltb_spec (len body) n).
    + split; [| lia]. unfold truncated. split; [lia | auto].
    + split; [| reflexivity]. unfold truncated. split; [| lia].
      destruct (new_address _ _) as [a |]; cbn; [| intros [|]; discriminate].
      destruct (cash_address a); cbn; intros [|]; discriminate.
Qed.

(** C4, as amended. For an address that [validate_address] accepts and
    whose payload the library gives as at most 255 bytes,
    [serialize_address] writes the version code, the payload length and the
    payload, and [deserialize_address] on these bytes returns, with no
    bytes left, the address the library renders from that code and
    payload. That is the original string when it is written in the
    library's rendering already, and another one otherwise. *)
Theorem address_round_trip (name address canonical : string) (code : Z)
    (payload : list Z) :
  validate_address name address = Ok address ->
  parses_to address code payload ->
  is_byte code -> Forall is_byte payload -> len payload < 256 ->
  renders_to code payload canonical ->
  serialize_address address = Ok (code :: len payload :: payload)
  /\ (serialize_address address ≫= deserialize_address) = Ok (canonical, []).
Proof.
  intros _ (a & m & Hparse & Htype & <- & <-) Hcode Hpayload Hlen (a' & Hnew & Hcash).
  assert (Hser : serialize_address address
                 = Ok (m.1.2 :: len (addr_payload a) :: addr_payload a)).
  { unfold serialize_address. rewrite Hparse. cbn. rewrite Htype. cbn.
    pose proof (len_nonneg (addr_payload a)).
    rewrite !to_bytes_one by (unfold is_byte in *; lia). cbn.
    rewrite bytes_of_list_ok by assumption. reflexivity. }
  split; [exact Hser |]. rewrite Hser. cbn [mbind result_bind].
  pose proof (len_nonneg (addr_payload a)).
  rewrite deserialize_address_header by lia.
  destruct (Z.ltb_spec (len (addr_payload a)) (len (addr_payload a))); [lia |].
  unfold len. rewrite Nat2Z.id, firstn_all, skipn_all, Hnew. cbn.
  rewrite Hcash. reflexivity.
Qed.
End AddressCodec.

(** A key-hash address, its twenty bytes of payload and three bytes more. *)
Lemma deserialize_address_spec_witness :
  deserialize_address
    ([0; 20; 118; 160; 64; 83; 189; 160; 168; 139; 218; 81; 119; 184; 106; 21; 195;
      178; 159; 85; 152; 115] ++ [7; 8; 9])
  = Ok ("bitcoincash:qpm2qsznhks23z7629mms6s4cwef74vcwvy22gdx6a"%string, [7; 8; 9]).
Proof.
  pose proof (deserialize_address_spec (H := cashaddress)
                ([0; 20; 118; 160; 64; 83; 189; 160; 168; 139; 218; 81; 119; 184; 106;
                  21; 195; 178; 159; 85; 152; 115] ++ [7; 8; 9])) as Hspec.
  destruct Hspec as [_ Hrest].
  - repeat constructor; unfold is_byte; lia.
  - rewrite Hrest.
    + vm_compute. reflexivity.
    + vm_compute. intros [C | C]; discriminate C.
Defined.

(** C5 as the specification has it fails on the two bytes [01 00]: the
    buffer is long enough, yet no address comes back, since the library
    knows no version 1. *)
Lemma unknown_version_counterexample :
  Forall is_byte [1; 0]
  /\ ~ (len [1; 0] < 2 \/ len [1; 0] < nth 1 [1; 0] 0 + 2)
  /\ deserialize_address (H := cashaddress) [1; 0] = Raise InvalidAddress
  /\ ~ truncated (deserialize_address (H := cashaddress) [1; 0])
  /\ ~ exists r, deserialize_address (H := cashaddress) [1; 0] = Ok r.
Proof.
  split; [repeat constructor; unfold is_byte; lia |].
  split; [vm_compute; intros [C | C]; discriminate C |].
  split; [reflexivity |].
  split; [intros [C | C]; discriminate C | intros [r C]; discriminate C].
Qed.

(** An address in the library's own rendering comes back as it was. *)
Lemma address_round_trip_witness :
  serialize_address "bitcoincash:qpm2qsznhks23z7629mms6s4cwef74vcwvy22gdx6a"
  = Ok [0; 20; 118; 160; 64; 83; 189; 160; 168; 139; 218; 81; 119; 184; 106; 21; 195;
        178; 159; 85; 152; 115]
  /\ (serialize_address "bitcoincash:qpm2qsznhks23z7629mms6s4cwef74vcwvy22gdx6a"
      ≫= deserialize_address)
     = Ok ("bitcoincash:qpm2qsznhks23z7629mms6s4cwef74vcwvy22gdx6a"%string, []).
Proof.
  refine (address_round_trip (H := cashaddress) "owner"
            "bitcoincash:qpm2qsznhks23z7629mms6s4cwef74vcwvy22gdx6a"
            "bitcoincash:qpm2qsznhks23z7629mms6s4cwef74vcwvy22gdx6a"
            0
            [118; 160; 64; 83; 189; 160; 168; 139; 218; 81; 119; 184;
             106; 21; 195; 178; 159; 85; 152; 115] _ _ _ _ _ _).
  - vm_compute. reflexivity.
  - eexists _, _. split; [vm_compute; reflexivity |].
    split; [vm_compute; reflexivity |]. split; reflexivity.
  - unfold is_byte. lia.
  - repeat constructor; unfold is_byte; lia.
  - vm_compute. reflexivity.
  - eexists. split; [vm_compute; reflexivity |]. vm_compute. reflexivity.
Defined.

(** C4 as the specification has it fails on a legacy address: it is
    accepted, and what comes back is its CashAddr form. *)
Lemma legacy_round_trip_counterexample :
  validate_address (H := cashaddress) "owner" "1BpEi6DfDAUFd7GtittLSdBeYJvcoaVggu"
  = Ok "1BpEi6DfDAUFd7GtittLSdBeYJvcoaVggu"%string
  /\ (serialize_address (H := cashaddress) "1BpEi6DfDAUFd7GtittLSdBeYJvcoaVggu"
      ≫= deserialize_address)
     = Ok ("bitcoincash:qpm2qsznhks23z7629mms6s4cwef74vcwvy22gdx6a"%string, [])
  /\ (serialize_address (H := cashaddress) "1BpEi6DfDAUFd7GtittLSdBeYJvcoaVggu"
      ≫= deserialize_address)
     <> Ok ("1BpEi6DfDAUFd7GtittLSdBeYJvcoaVggu"%string, []).
Proof.
  split; [vm_compute; reflexivity |].
  split; [vm_compute; reflexivity |].
  vm_compute. discriminate.
Qed.

Example legacy_address_parses :
  from_string "1BpEi6DfDAUFd7GtittLSdBeYJvcoaVggu"
  = Some {| addr_version := VName "P2PKH";
            addr_payload := [118; 160; 64; 83; 189; 160; 168; 139; 218; 81; 119; 184;
                             106; 21; 195; 178; 159; 85; 152; 115];
            addr_prefix := "bitcoincash" |}.
Proof. vm_compute. reflexivity. Qed.

Example cash_address_parses :
  from_string "bitcoincash:qpm2qsznhks23z7629mms6s4cwef74vcwvy22gdx6a"
  = from_string "1BpEi6DfDAUFd7GtittLSdBeYJvcoaVggu".
Proof. vm_compute. reflexivity. Qed.

Example script_address_renders :
  (a ← from_string "3CWFddi6m4ndiGyKqzYvsFYagqDLPVMTzC"; cash_address a)
  = Some "bitcoincash:ppm2qsznhks23z7629mms6s4cwef74vcwvn0h829pq"%string.
Proof. vm_compute. reflexivity. Qed.

Example mixed_case_is_invalid :
  is_valid "bitcoincash:Qpm2qsznhks23z7629mms6s4cwef74vcwvy22gdx6a" = false.
Proof. vm_compute. reflexivity. Qed.

Example upper_case_comes_back_lower :
  (serialize_address "BITCOINCASH:QPM2QSZNHKS23Z7629MMS6S4CWEF74VCWVY22GDX6A"
   ≫= deserialize_address)
  = Ok ("bitcoincash:qpm2qsznhks23z7629mms6s4cwef74vcwvy22gdx6a"%string, []).
Proof. vm_compute. reflexivity. Qed.

Example sha256_abc :
  Sha256.digest (text_of_string "abc")
  = [0xba; 0x78; 0x16; 0xbf; 0x8f; 0x01; 0xcf; 0xea; 0x41; 0x41; 0x40; 0xde; 0x5d; 0xae;
     0x22; 0x23; 0xb0; 0x03; 0x61; 0xa3; 0x96; 0x17; 0x7a; 0x9c; 0xb4; 0x10; 0xff; 0x61;
     0xf2; 0x00; 0x15; 0xad].
Proof. vm_compute. reflexivity. Qed.

Example truncated_header : truncated (deserialize_address [0]).
Proof. left. reflexivity. Qed.

Example truncated_payload : truncated (deserialize_address [0; 5; 65; 66]).
Proof. right. reflexivity. Qed.

(** ** Equality *)

Section EqualityFacts.
Context {class value : Type}.
Variable issubclass : class -> class -> bool.
Variable value_eq : value -> value -> bool.
Implicit Types (self : operation class value) (other : object class value).

(** Dictionary equality is equality of the fields. *)
Lemma dict_eq_same_fields (d1 d2 : gmap string value) :
  dict_eq value_eq d1 d2 = true <-> same_fields value_eq d1 d2.
Proof.
  unfold dict_eq, same_fields.
  rewrite andb_true_iff, bool_decide_eq_true, forallb_forall. split.
  - intros [Hsize Hall].
    assert (Hsub : dom d1 ⊆ dom d2).
    { intros k Hk. apply elem_of_dom in Hk as [a Ha]. apply elem_of_dom.
      specialize (Hall (k, a)). cbn in Hall.
      destruct (d2 !! k); [eauto |].
      discriminate Hall. apply list_elem_of_In, elem_of_map_to_list. exact Ha. }
    assert (Hdom : dom d1 = dom d2).
    { apply set_subseteq_size_eq; [exact Hsub |]. rewrite !size_dom. lia. }
    intros k. destruct (d1 !! k) as [a |] eqn:Ha.
    + specialize (Hall (k, a)). cbn in Hall.
      destruct (d2 !! k);
        [| discriminate Hall; apply list_elem_of_In, elem_of_map_to_list; exact Ha].
      apply Hall. apply list_elem_of_In, elem_of_map_to_list. exact Ha.
    + destruct (d2 !! k) as [b |] eqn:Hb; [| exact I].
      assert (Hk : k ∈ dom d2) by (apply elem_of_dom; eauto).
      rewrite <- Hdom in Hk. apply elem_of_dom in Hk as [a' Ha']. congruence.
  - intros Hsame. split.
    + rewrite <- !(size_dom (D := gset string)). f_equal. apply set_eq. intros k.
      rewrite !elem_of_dom. specialize (Hsame k).
      destruct (d1 !! k), (d2 !! k); try contradiction;
        split; intros [? ?]; eauto; discriminate.
    + intros [k a] Hin. apply list_elem_of_In, elem_of_map_to_list in Hin. cbn.
      specialize (Hsame k). rewrite Hin in Hsame.
      destruct (d2 !! k); [exact Hsame | contradiction].
Qed.

(** Against an object that has a dictionary, [__eq__] returns, and its
    answer is: related classes and equal fields. *)
Lemma eq_with_dict self other (d : gmap string value) :
  dict_of other = Some d ->
  __eq__ issubclass value_eq self other
  = Ok (related issubclass self other && dict_eq value_eq (op_dict self) d).
Proof.
  intros Hd. unfold __eq__, related, isinstance, get_dict. cbn. rewrite Hd.
  destruct (_ || _); reflexivity.
Qed.

Lemma eq_unrelated self other :
  related issubclass self other = false ->
  __eq__ issubclass value_eq self other = Ok false.
Proof.
  unfold __eq__, related, isinstance. cbn. intros ->. reflexivity.
Qed.

(** Against a related object without one, reading [other.__dict__] raises. *)
Lemma eq_without_dict self other :
  related issubclass self other = true -> dict_of other = None ->
  __eq__ issubclass value_eq self other = Raise AttributeError.
Proof.
  unfold __eq__, related, isinstance, get_dict. cbn. intros -> ->. reflexivity.
Qed.

Lemma ne_negates self other :
  __ne__ issubclass value_eq self other
  = negb <$> __eq__ issubclass value_eq self other.
Proof. unfold __ne__. destruct (__eq__ _ _ self other); reflexivity. Qed.
End EqualityFacts.

(** What [==] and [!=] answer. Against an object that has a dictionary,
    [__eq__] returns whether the classes are related, in either direction,
    and the dictionaries are equal, which is to say that they hold the same
    fields with equal values; against an unrelated object it returns
    [False]; and [__ne__] negates whatever [__eq__] returns. *)
Theorem eq_answers {class value : Type} (issubclass : class -> class -> bool)
    (value_eq : value -> value -> bool)
    (self : operation class value) (other : object class value) :
  (forall d, dict_of other = Some d ->
     __eq__ issubclass value_eq self other
     = Ok (related issubclass self other && dict_eq value_eq (op_dict self) d)
     /\ (dict_eq value_eq (op_dict self) d = true
         <-> same_fields value_eq (op_dict self) d))
  /\ (related issubclass self other = false ->
        __eq__ issubclass value_eq self other = Ok false)
  /\ __ne__ issubclass value_eq self other
      = negb <$> __eq__ issubclass value_eq self other.
Proof.
  split; [| split].
  - intros d Hd. split; [apply eq_with_dict; exact Hd | apply dict_eq_same_fields].
  - apply eq_unrelated.
  - apply ne_negates.
Qed.

(** C10, on the input where the code departs from it: every operation is an
    instance of [object], so comparing one with [object()] goes on to read
    the [__dict__] that [object()] does not have, and both [==] and [!=]
    raise [AttributeError] instead of answering. *)
Theorem eq_bare_object_raises (x : operation pyclass field) :
  __eq__ py_issubclass field_eq x bare_object = Raise AttributeError
  /\ __ne__ py_issubclass field_eq x bare_object = Raise AttributeError.
Proof.
  assert (Heq : __eq__ py_issubclass field_eq x bare_object = Raise AttributeError).
  { apply eq_without_dict; [| reflexivity].
    unfold related. cbn. apply orb_true_r. }
  split; [exact Heq |]. rewrite ne_negates, Heq. reflexivity.
Qed.

Example eq_same_type :
  __eq__ py_issubclass field_eq
    {| op_class := class_operation "Create"; op_dict := {[ "supply" := FInt 100 ]} |}
    {| class_of := class_operation "Create";
       dict_of := Some {[ "supply" := FInt 100 ]} |}
  = Ok true.
Proof. vm_compute. reflexivity. Qed.

Example eq_field_differs :
  __eq__ py_issubclass field_eq
    {| op_class := class_operation "Create"; op_dict := {[ "supply" := FInt 100 ]} |}
    {| class_of := class_operation "Create";
       dict_of := Some {[ "supply" := FInt 101 ]} |}
  = Ok false.
Proof. vm_compute. reflexivity. Qed.

Example eq_unrelated_type :
  __eq__ py_issubclass field_eq
    {| op_class := class_operation "Create"; op_dict := {[ "supply" := FInt 100 ]} |}
    {| class_of := class_other "int"; dict_of := None |}
  = Ok false.
Proof. vm_compute. reflexivity. Qed.

(** * Further properties of the helpers *)

(** ** The framer on any buffer *)

(** A buffer either holds no separator, or splits at its first one. *)
Lemma separator_split (data : bytes) :
  Forall (fun b => b <> 0xFF) data
  \/ exists pre rest, data = pre ++ SEPARATOR ++ rest /\ Forall (fun b => b <> 0xFF) pre.
Proof.
  induction data as [| b data IH]; [left; constructor |].
  destruct (Z.eq_dec b 0xFF) as [-> | Hb].
  - right. exists [], data. split; [reflexivity | constructor].
  - destruct IH as [Hno | (pre & rest & -> & Hno)].
    + left. constructor; assumption.
    + right. exists (b :: pre), rest. split; [reflexivity | constructor; assumption].
Qed.

Lemma no_separator_iff (data : bytes) : Forall (fun b => b <> 0xFF) data <-> 0xFF ∉ data.
Proof.
  rewrite Forall_forall. split.
  - intros Hall Hin. apply Hall in Hin. congruence.
  - intros Hno b Hb ->. contradiction.
Qed.

Lemma slice_separator (pre rest : bytes) :
  slice (pre ++ SEPARATOR ++ rest) (len pre) (len pre + 1) = SEPARATOR.
Proof.
  pose proof (len_nonneg pre). pose proof (len_nonneg rest).
  rewrite slice_within by (rewrite ?len_app; change (len SEPARATOR) with 1; lia).
  replace (len pre + 1 - len pre) with 1 by lia.
  unfold len. rewrite Nat2Z.id, drop_app_length. reflexivity.
Qed.

Lemma slice_after_separator (pre rest : bytes) :
  slice_from (pre ++ SEPARATOR ++ rest) (len pre + 1) = rest.
Proof.
  pose proof (len_nonneg pre). pose proof (len_nonneg rest).
  rewrite slice_from_within by (rewrite ?len_app; change (len SEPARATOR) with 1; lia).
  replace (Z.to_nat (len pre + 1)) with (length (pre ++ SEPARATOR)).
  - rewrite app_assoc. apply drop_app_length.
  - rewrite length_app. unfold len, SEPARATOR. cbn [length]. lia.
Qed.

(** What [read_text] returns on any buffer, when it returns: it consumes a
    prefix of the buffer that holds no separator; the flag says that the
    buffer holds none at all, and then everything is consumed; without the
    flag the byte after the consumed ones is the separator; and the text is
    [None] only for a separator at the head of the buffer. *)
Theorem read_text_consumed (data : bytes) (encoding : option codec)
    (t : option text) (n : Z) (done : bool) :
  read_text data encoding = Ok (t, n, done) ->
  0 <= n <= len data
  /\ (0xFF ∉ slice_to data n)
  /\ (done = true <-> 0xFF ∉ data)
  /\ (done = true -> n = len data)
  /\ (done = false -> slice data n (n + 1) = SEPARATOR)
  /\ (t = None <-> n = 0 /\ done = false).
Proof.
  intros Hread. pose proof (len_nonneg data) as Hlen.
  destruct (separator_split data) as [Hno | (pre & rest & -> & Hno)].
  - rewrite read_text_last_field in Hread by assumption.
    destruct (decode _ data) as [t' |]; [| discriminate].
    cbn in Hread. injection Hread as <- <- <-.
    rewrite slice_to_all. pose proof (proj1 (no_separator_iff data) Hno).
    split; [lia |]. split; [assumption |]. split; [tauto |]. split; [reflexivity |].
    split; [discriminate |]. split; [discriminate | intros [_ [=]]].
  - assert (Hin : 0xFF ∈ pre ++ SEPARATOR ++ rest).
    { apply elem_of_app. right. apply elem_of_app. left. unfold SEPARATOR. set_solver. }
    pose proof (len_nonneg pre). pose proof (len_nonneg rest).
    assert (Hsep : len SEPARATOR = 1) by reflexivity.
    destruct pre as [| b pre].
    + cbn [app] in *. rewrite read_text_leading_separator in Hread.
      injection Hread as <- <- <-.
      split; [lia |]. split; [unfold slice_to; cbn; set_solver |].
      split; [split; [discriminate | contradiction] |].
      split; [discriminate |].
      split; [intros _; apply (slice_separator [] rest) | tauto].
    + rewrite read_text_separated in Hread by (assumption || discriminate).
      destruct (decode _ (b :: pre)) as [t' |]; [| discriminate].
      cbn in Hread. injection Hread as <- <- <-.
      rewrite slice_to_app.
      split; [rewrite !len_app; lia |]. split; [apply no_separator_iff; assumption |].
      split; [split; [discriminate | contradiction] |].
      split; [discriminate |].
      split; [intros _; apply slice_separator |].
      split; [discriminate | intros [Hz _]; rewrite len_cons in Hz; pose proof (len_nonneg pre); lia].
Qed.

(** The field "h", a separator, and the start of the next field. *)
Lemma read_text_consumed_witness :
  read_text [104; 0xFF; 105] None = Ok (Some [104], 1, false)
  /\ slice [104; 0xFF; 105] 1 (1 + 1) = SEPARATOR.
Proof.
  split; [reflexivity |].
  exact (proj1 (proj2 (proj2 (proj2 (proj2
           (read_text_consumed [104; 0xFF; 105] None (Some [104]) 1 false eq_refl)))))
           eq_refl).
Defined.

(** Two fields in a row. Reading the first leaves the position of the
    separator; the bytes after the separator are the second field, and
    reading them gives the second text with the flag set, as nothing follows
    it. *)
Theorem read_text_next_field (t1 t2 : text) (b1 b2 : bytes) :
  encode ENCODING t1 = Ok b1 -> encode ENCODING t2 = Ok b2 -> t1 <> [] ->
  read_text (b1 ++ SEPARATOR ++ b2) None = Ok (Some t1, len b1, false)
  /\ slice_from (b1 ++ SEPARATOR ++ b2) (len b1 + 1) = b2
  /\ read_text (slice_from (b1 ++ SEPARATOR ++ b2) (len b1 + 1)) None
     = Ok (Some t2, len b2, true).
Proof.
  cbn [encode ENCODING]. intros H1 H2 Hne.
  split; [| split].
  - rewrite read_text_separated.
    + cbn [default decode ENCODING]. rewrite (utf8_roundtrip _ _ H1). reflexivity.
    + apply no_separator_below. eapply utf8_encode_bytes. eassumption.
    + eapply utf8_encode_nonempty; eassumption.
  - apply slice_after_separator.
  - rewrite slice_after_separator, read_text_last_field.
    + cbn [default decode ENCODING]. rewrite (utf8_roundtrip _ _ H2). reflexivity.
    + apply no_separator_below. eapply utf8_encode_bytes. eassumption.
Qed.

(** "é" and then "ok". *)
Lemma read_text_next_field_witness :
  read_text ([0xC3; 0xA9] ++ SEPARATOR ++ [111; 107]) None = Ok (Some [0xE9], 2, false)
  /\ slice_from ([0xC3; 0xA9] ++ SEPARATOR ++ [111; 107]) (2 + 1) = [111; 107]
  /\ read_text (slice_from ([0xC3; 0xA9] ++ SEPARATOR ++ [111; 107]) (2 + 1)) None
     = Ok (Some [111; 107], 2, true).
Proof.
  refine (read_text_next_field [0xE9] [111; 107] [0xC3; 0xA9] [111; 107] eq_refl eq_refl _).
  discriminate.
Defined.

(** ** The codecs, read the other way *)

Lemma fmap_cons_ok (c : Z) (r : result text) (t : text) :
  cons c <$> r = Ok t -> exists t', t = c :: t' /\ r = Ok t'.
Proof. destruct r as [t' |]; cbn; [intros [= <-]; eauto | discriminate]. Qed.


Lemma ascii_decode_eq (data : bytes) :
  ascii_decode data
  = if forallb (fun b => b <? 128) data then Ok data else Raise UnicodeDecodeError.
Proof.
  induction data as [| b data IH]; [reflexivity |]. cbn [ascii_decode forallb].
  destruct (b <? 128); [| reflexivity]. rewrite IH. cbn.
  destruct (forallb _ data); reflexivity.
Qed.

(** The two-byte form, overlong or not. *)
Lemma utf8_decode_2_eq (q r : Z) (rest : bytes) :
  0 <= q < 32 -> 0 <= r < 64 ->
  utf8_decode (0xC0 + q :: 0x80 + r :: rest)
  = if 0x80 <=? q * 64 + r then cons (q * 64 + r) <$> utf8_decode rest
    else Raise UnicodeDecodeError.
Proof.
  intros Hq Hr. cbn [utf8_decode].
  range_false.
  destruct (lead_masks (0xC0 + q)) as (_ & -> & _); [lia |]. range_true.
  change 0x1F with (Z.ones 5). change 0xC0 with (6 * 2 ^ 5).
  rewrite land_ones_offset by (change (2 ^ 5) with 32; lia).
  rewrite push6_tail, is_continuation_tail by lia.
  reflexivity.
Qed.

Lemma utf8_decode_3_eq (p q r : Z) (rest : bytes) :
  0 <= p < 16 -> 0 <= q < 64 -> 0 <= r < 64 ->
  utf8_decode (0xE0 + p :: 0x80 + q :: 0x80 + r :: rest)
  = if (0x800 <=? (p * 64 + q) * 64 + r) && negb (is_surrogate ((p * 64 + q) * 64 + r))
    then cons ((p * 64 + q) * 64 + r) <$> utf8_decode rest
    else Raise UnicodeDecodeError.
Proof.
  intros Hp Hq Hr. cbn [utf8_decode].
  range_false.
  destruct (lead_masks (0xE0 + p)) as (_ & -> & -> & _); [lia |].
  range_false. range_true.
  change 0x0F with (Z.ones 4). change 0xE0 with (14 * 2 ^ 4).
  rewrite land_ones_offset by (change (2 ^ 4) with 16; lia).
  rewrite !push6_tail, !is_continuation_tail by lia.
  reflexivity.
Qed.

Lemma utf8_decode_4_eq (o p q r : Z) (rest : bytes) :
  0 <= o < 8 -> 0 <= p < 64 -> 0 <= q < 64 -> 0 <= r < 64 ->
  utf8_decode (0xF0 + o :: 0x80 + p :: 0x80 + q :: 0x80 + r :: rest)
  = if (0x10000 <=? ((o * 64 + p) * 64 + q) * 64 + r)
       && (((o * 64 + p) * 64 + q) * 64 + r <? 0x110000)
    then cons (((o * 64 + p) * 64 + q) * 64 + r) <$> utf8_decode rest
    else Raise UnicodeDecodeError.
Proof.
  intros Ho Hp Hq Hr. cbn [utf8_decode].
  range_false.
  destruct (lead_masks (0xF0 + o)) as (_ & -> & -> & ->); [lia |].
  range_false. range_false. range_true.
  change 0x07 with (Z.ones 3). change 0xF0 with (30 * 2 ^ 3).
  rewrite land_ones_offset by (change (2 ^ 3) with 8; lia).
  rewrite !push6_tail, !is_continuation_tail by lia.
  reflexivity.
Qed.

(** A lead byte that is followed by something else than a continuation
    byte, or by nothing. *)
Lemma utf8_decode_stray (b0 : Z) (r0 : bytes) :
  0x80 <= b0 < 0x100 ->
  match r0 with
  | b1 :: _ => is_continuation b1 = false
  | [] => True
  end ->
  utf8_decode (b0 :: r0) = Raise UnicodeDecodeError.
Proof.
  intros Hb0 Hr0. cbn [utf8_decode]. range_false.
  destruct r0 as [| b1 r1]; [repeat case_match; reflexivity |].
  rewrite Hr0. cbn [andb]. repeat case_match; reflexivity.
Qed.

(** A byte that cannot start a code point: a continuation byte, or one of
    0xF8..0xFF. *)
Lemma utf8_decode_no_lead (b0 : Z) (r0 : bytes) :
  0x80 <= b0 < 0xC0 \/ 0xF8 <= b0 < 0x100 ->
  utf8_decode (b0 :: r0) = Raise UnicodeDecodeError.
Proof.
  intros Hb0. cbn [utf8_decode]. range_false.
  destruct (lead_masks b0) as (_ & -> & -> & ->); [lia |].
  repeat range_false. reflexivity.
Qed.

Lemma continuation_cases (b : Z) :
  0 <= b < 256 -> is_continuation b = false \/ exists r, 0 <= r < 64 /\ b = 0x80 + r.
Proof.
  intros Hb. unfold is_continuation. destruct (lead_masks b Hb) as (-> & _).
  destruct (Z.leb_spec 0x80 b), (Z.ltb_spec b 0xC0); cbn; auto.
  right. exists (b - 0x80). lia.
Qed.

(** One step of the decoder on bytes: it fails, or it has read one code
    point in one of the four shapes and goes on after it. *)
Lemma utf8_decode_step (b0 : Z) (r0 : bytes) :
  Forall is_byte (b0 :: r0) ->
  utf8_decode (b0 :: r0) = Raise UnicodeDecodeError
  \/ exists c bs rest,
       b0 :: r0 = bs ++ rest /\ bs <> [] /\ utf8_shape c bs
       /\ utf8_decode (b0 :: r0) = cons c <$> utf8_decode rest.
Proof.
  intros Hbytes. inversion Hbytes as [| ? ? Hb0 Hr0]; subst. unfold is_byte in Hb0.
  destruct (Z.lt_ge_cases b0 0x80) as [H1 | H1].
  { right. exists b0, [b0], r0. split; [reflexivity |]. split; [discriminate |].
    split; [constructor; lia | apply utf8_decode_1; lia]. }
  destruct (Z.lt_ge_cases b0 0xC0) as [H2 | H2].
  { left. apply utf8_decode_no_lead. lia. }
  destruct (Z.lt_ge_cases b0 0xF8) as [H5 | H5];
    [| left; apply utf8_decode_no_lead; lia].
  (* the first continuation byte *)
  destruct r0 as [| b1 r1]; [left; apply utf8_decode_stray; [lia | exact I] |].
  inversion Hr0 as [| ? ? Hb1 Hr1]; subst.
  destruct (continuation_cases b1 Hb1) as [Hc1 | (x1 & Hx1 & ->)];
    [left; apply utf8_decode_stray; [lia | exact Hc1] |].
  destruct (Z.lt_ge_cases b0 0xE0) as [H3 | H3].
  { replace b0 with (0xC0 + (b0 - 0xC0)) by lia.
    rewrite utf8_decode_2_eq by lia.
    destruct (Z.leb_spec 0x80 ((b0 - 0xC0) * 64 + x1)); [right | left; reflexivity].
    exists ((b0 - 0xC0) * 64 + x1), [0xC0 + (b0 - 0xC0); 0x80 + x1], r1.
    split; [reflexivity |]. split; [discriminate |]. split; [| reflexivity].
    replace (0xC0 + (b0 - 0xC0)) with (0xC0 + ((b0 - 0xC0) * 64 + x1) / 64) by divmod.
    replace (0x80 + x1) with (0x80 + ((b0 - 0xC0) * 64 + x1) mod 64) at 1 by divmod.
    constructor. lia. }
  (* the second *)
  assert (Hstray2 : forall r, match r with b :: _ => is_continuation b = false | [] => True end ->
            utf8_decode (b0 :: 0x80 + x1 :: r) = Raise UnicodeDecodeError).
  { intros r Hr. cbn [utf8_decode]. range_false.
    destruct (lead_masks b0) as (_ & -> & E3 & E4); [lia |]. range_false.
    rewrite E3, E4.
    destruct r as [| b2 r2]; [repeat case_match; reflexivity |].
    rewrite Hr, ?andb_false_r. cbn [andb].
    destruct r2; repeat case_match; reflexivity. }
  destruct r1 as [| b2 r2]; [left; apply Hstray2; exact I |].
  inversion Hr1 as [| ? ? Hb2 Hr2]; subst.
  destruct (continuation_cases b2 Hb2) as [Hc2 | (x2 & Hx2 & ->)];
    [left; apply Hstray2; exact Hc2 |].
  clear Hstray2.
  destruct (Z.lt_ge_cases b0 0xF0) as [H4 | H4].
  { replace b0 with (0xE0 + (b0 - 0xE0)) by lia.
    rewrite utf8_decode_3_eq by lia.
    destruct (Z.leb_spec 0x800 (((b0 - 0xE0) * 64 + x1) * 64 + x2));
      [| left; reflexivity].
    destruct (is_surrogate (((b0 - 0xE0) * 64 + x1) * 64 + x2)) eqn:Hs;
      [left; reflexivity | right]. cbn [andb negb].
    exists ((((b0 - 0xE0) * 64 + x1) * 64 + x2)),
      [0xE0 + (b0 - 0xE0); 0x80 + x1; 0x80 + x2], r2.
    split; [reflexivity |]. split; [discriminate |]. split; [| reflexivity].
    set (c := ((b0 - 0xE0) * 64 + x1) * 64 + x2) in *.
    replace (0xE0 + (b0 - 0xE0)) with (0xE0 + c / 4096) by (subst c; divmod).
    replace (0x80 + x1) with (0x80 + (c / 64) mod 64) by (subst c; divmod).
    replace (0x80 + x2) with (0x80 + c mod 64) by (subst c; divmod).
    constructor; [subst c; lia | assumption]. }
  (* the third *)
  assert (Hstray3 : forall r, match r with b :: _ => is_continuation b = false | [] => True end ->
            utf8_decode (b0 :: 0x80 + x1 :: 0x80 + x2 :: r) = Raise UnicodeDecodeError).
  { intros r Hr. cbn [utf8_decode]. range_false.
    destruct (lead_masks b0) as (_ & -> & -> & ->); [lia |].
    range_false. range_false. range_true.
    destruct r as [| b3 r3]; [reflexivity |].
    rewrite Hr, ?andb_false_r. cbn [andb]. reflexivity. }
  destruct r2 as [| b3 r3]; [left; apply Hstray3; exact I |].
  inversion Hr2 as [| ? ? Hb3 Hr3]; subst.
  destruct (continuation_cases b3 Hb3) as [Hc3 | (x3 & Hx3 & ->)];
    [left; apply Hstray3; exact Hc3 |].
  clear Hstray3.
  replace b0 with (0xF0 + (b0 - 0xF0)) by lia.
  rewrite utf8_decode_4_eq by lia.
  set (c := (((b0 - 0xF0) * 64 + x1) * 64 + x2) * 64 + x3) in *.
  destruct (Z.leb_spec 0x10000 c); [| left; reflexivity].
  destruct (Z.ltb_spec c 0x110000); [right | left; reflexivity]. cbn [andb].
  exists c, [0xF0 + (b0 - 0xF0); 0x80 + x1; 0x80 + x2; 0x80 + x3], r3.
  split; [reflexivity |]. split; [discriminate |]. split; [| reflexivity].
  replace (0xF0 + (b0 - 0xF0)) with (0xF0 + c / 262144) by (subst c; divmod).
  replace (0x80 + x1) with (0x80 + (c / 4096) mod 64) by (subst c; divmod).
  replace (0x80 + x2) with (0x80 + (c / 64) mod 64) by (subst c; divmod).
  replace (0x80 + x3) with (0x80 + c mod 64) by (subst c; divmod).
  constructor. lia.
Qed.

Lemma utf8_shape_encodes (c : Z) (bs : bytes) :
  utf8_shape c bs -> utf8_encode_char c = Ok bs.
Proof.
  intros Hshape. destruct Hshape.
  - apply utf8_char_1. assumption.
  - apply utf8_char_2. assumption.
  - apply utf8_char_3; assumption.
  - apply utf8_char_4. assumption.
Qed.


(** What a strict decoder accepts is the encoding of what it returns: no
    other bytes decode to the same text. *)
Lemma utf8_decode_canonical (data : bytes) (t : text) :
  Forall is_byte data -> utf8_decode data = Ok t -> utf8_encode t = Ok data.
Proof.
  remember (length data) as n eqn:Hn. revert data t Hn.
  induction n as [n IH] using lt_wf_ind. intros data t Hn Hbytes Hdec.
  destruct data as [| b0 r0]; [injection Hdec as <-; reflexivity |].
  destruct (utf8_decode_step b0 r0 Hbytes)
    as [Hr | (c & bs & rest & Hsplit & Hne & Hshape & Hstep)]; [congruence |].
  rewrite Hstep in Hdec. apply fmap_cons_ok in Hdec as (t' & -> & Hrest).
  rewrite Hsplit. cbn [utf8_encode]. rewrite (utf8_shape_encodes _ _ Hshape). cbn.
  rewrite (IH (length rest)) with (data := rest) (t := t'); [reflexivity | | reflexivity | | assumption].
  - subst n. rewrite Hsplit, length_app. destruct bs; [congruence | cbn; lia].
  - rewrite Hsplit in Hbytes. apply Forall_app in Hbytes. tauto.
Qed.


Lemma decode_canonical (e : codec) (data : bytes) (t : text) :
  Forall is_byte data -> decode e data = Ok t -> encode e t = Ok data.
Proof.
  intros Hbytes. destruct e; cbn [decode encode].
  - apply utf8_decode_canonical. assumption.
  - rewrite ascii_decode_eq. destruct (forallb _ data) eqn:Hall; [| discriminate].
    intros [= <-]. apply ascii_encode_ok. split; [reflexivity |].
    rewrite forallb_forall in Hall. apply Forall_forall. intros b Hb.
    rewrite Forall_forall in Hbytes. pose proof (Hbytes b Hb) as Hr. unfold is_byte in Hr.
    apply list_elem_of_In, Hall, Z.ltb_lt in Hb. lia.
Qed.

(** The field that [read_text] decodes is a part of the buffer. *)
Lemma slice_to_bytes (data : bytes) (n : Z) :
  Forall is_byte data -> Forall is_byte (slice_to data n).
Proof.
  intros Hbytes. unfold slice_to, slice. apply Forall_take, Forall_drop. assumption.
Qed.

(** Bytes below 0x80 are themselves under both codecs, either way. *)
Lemma utf8_encode_ascii (t : text) :
  Forall (fun c => 0 <= c < 0x80) t -> utf8_encode t = Ok t.
Proof.
  induction 1 as [| c t Hc _ IH]; [reflexivity |].
  cbn [utf8_encode]. rewrite utf8_char_1, IH by assumption. reflexivity.
Qed.

Lemma utf8_decode_ascii (data : bytes) :
  Forall (fun b => 0 <= b < 0x80) data -> utf8_decode data = Ok data.
Proof.
  induction 1 as [| b data Hb _ IH]; [reflexivity |].
  rewrite utf8_decode_1, IH by assumption. reflexivity.
Qed.

Lemma encode_ascii (e : codec) (t : text) :
  Forall (fun c => 0 <= c < 0x80) t -> encode e t = Ok t.
Proof.
  intros Hall. destruct e; cbn [encode].
  - apply utf8_encode_ascii. assumption.
  - apply ascii_encode_ok. auto.
Qed.

Lemma decode_ascii (e : codec) (data : bytes) :
  Forall (fun b => 0 <= b < 0x80) data -> decode e data = Ok data.
Proof.
  intros Hall. destruct e; cbn [decode].
  - apply utf8_decode_ascii. assumption.
  - rewrite ascii_decode_eq.
    replace (forallb _ data) with true; [reflexivity |].
    symmetry. apply forallb_forall. intros b Hb.
    rewrite Forall_forall in Hall. apply list_elem_of_In, Hall in Hb. apply Z.ltb_lt. lia.
Qed.

(** What [read_text] decodes: the bytes it reports as consumed. *)
Lemma read_text_decodes (data : bytes) (encoding : option codec) :
  (exists n done,
     read_text data encoding
     = (t ← decode (default ENCODING encoding) (slice_to data n); Ok (Some t, n, done)))
  \/ read_text data encoding = Ok (None, 0, false).
Proof.
  unfold read_text.
  destruct (bytes_find data SEPARATOR <? 0);
    [left; eexists _, _; destruct encoding; reflexivity |].
  destruct (bytes_find data SEPARATOR =? 0); [right; reflexivity |].
  left; eexists _, _; destruct encoding; reflexivity.
Qed.

(** Reading is exact. When [read_text] returns a text, encoding that text
    again gives the very bytes it consumed: no two fields read as the same
    text, under either codec. *)
Theorem read_text_reencodes (data : bytes) (encoding : option codec)
    (t : text) (n : Z) (done : bool) :
  Forall is_byte data ->
  read_text data encoding = Ok (Some t, n, done) ->
  encode (default ENCODING encoding) t = Ok (slice_to data n).
Proof.
  intros Hbytes Hread.
  destruct (read_text_decodes data encoding) as [(n' & done' & Heq) | Heq];
    rewrite Heq in Hread; [| discriminate].
  destruct (decode _ (slice_to data n')) as [t' |] eqn:Hdec; [| discriminate].
  cbn in Hread. injection Hread as -> -> ->.
  apply decode_canonical; [apply slice_to_bytes |]; assumption.
Qed.

(** The two bytes of "é" and a separator. *)
Lemma read_text_reencodes_witness :
  read_text [0xC3; 0xA9; 0xFF] None = Ok (Some [0xE9], 2, false)
  /\ encode ENCODING [0xE9] = Ok (slice_to [0xC3; 0xA9; 0xFF] 2).
Proof.
  split; [reflexivity |].
  refine (read_text_reencodes [0xC3; 0xA9; 0xFF] None [0xE9] 2 false _ eq_refl).
  repeat constructor; unfold is_byte; lia.
Defined.




(** ** The classifiers on any text *)

Lemma utf8_encode_char_raises (c : Z) (e : exn) :
  utf8_encode_char c = Raise e -> e = UnicodeEncodeError.
Proof.
  unfold utf8_encode_char. repeat case_match; congruence.
Qed.

Lemma utf8_encode_raises (t : text) (e : exn) :
  utf8_encode t = Raise e -> e = UnicodeEncodeError.
Proof.
  induction t as [| c t IH]; cbn [utf8_encode]; [discriminate |].
  destruct (utf8_encode_char c) eqn:Hc; cbn.
  - destruct (utf8_encode t); cbn; [discriminate |]. intros [= <-]. apply IH. reflexivity.
  - intros [= <-]. eapply utf8_encode_char_raises. eassumption.
Qed.

(** The code points UTF-8 encodes: all but the surrogates. *)
Lemma utf8_encode_char_ok (c : Z) :
  (exists bs, utf8_encode_char c = Ok bs) <-> 0 <= c < 0x110000 /\ is_surrogate c = false.
Proof.
  split.
  - intros [bs Henc]. apply utf8_encode_char_shape in Henc.
    destruct Henc; (split; [lia |]); try assumption;
      unfold is_surrogate; apply andb_false_iff; rewrite Z.leb_gt, Z.leb_gt; lia.
  - intros [Hc Hs]. unfold utf8_encode_char. rewrite Hs.
    repeat case_match; try lia; eauto.
Qed.

Lemma utf8_encode_ok (t : text) :
  (exists bs, utf8_encode t = Ok bs)
  <-> Forall (fun c => 0 <= c < 0x110000 /\ is_surrogate c = false) t.
Proof.
  induction t as [| c t IH]; cbn [utf8_encode].
  - split; [constructor | eauto].
  - rewrite Forall_cons, <- IH, <- utf8_encode_char_ok.
    destruct (utf8_encode_char c) as [cb |]; cbn;
      [| split; [intros [? [=]] | intros [[? [=]] _]]].
    destruct (utf8_encode t) as [tb |]; cbn;
      [split; eauto | split; [intros [? [=]] | intros [_ [? [=]]]]].
Qed.

(** The loop of the classifiers over the bytes never finds the separator: it
    compares each byte, an [int], with a [bytes] object. *)
Lemma separator_test_dead (bs : bytes) :
  existsb (fun b => py_eq (PInt b) (PBytes SEPARATOR)) bs = false.
Proof. induction bs; [reflexivity | assumption]. Qed.

Lemma is_safe_ascii_chars (t : text) :
  is_safe_ascii t = Ok true <-> Forall (fun c => 32 <= c <= 126) t.
Proof.
  rewrite is_safe_ascii_eq. split.
  - intros [= Hok]. destruct (ascii_encode t) as [bs |] eqn:Henc; [| discriminate].
    apply ascii_encode_ok in Henc as [-> _].
    rewrite forallb_forall in Hok. apply Forall_forall. intros c Hc.
    apply list_elem_of_In, Hok, printable_range in Hc. exact Hc.
  - intros Hall.
    assert (Henc : ascii_encode t = Ok t).
    { apply ascii_encode_ok. split; [reflexivity |].
      eapply Forall_impl; [exact Hall |]. cbn. intros c ?. lia. }
    rewrite Henc. f_equal. apply forallb_forall. intros c Hc.
    rewrite Forall_forall in Hall. apply list_elem_of_In, Hall in Hc.
    apply printable_range. exact Hc.
Qed.

Lemma is_safe_ascii_returns (t : text) : exists b, is_safe_ascii t = Ok b.
Proof. rewrite is_safe_ascii_eq. eauto. Qed.

Section ClassifierFacts.
Context `{UnicodeData}.

Lemma has_unicode_type_app (t1 t2 : text) (types : list string) :
  has_unicode_type (t1 ++ t2) types
  = has_unicode_type t1 types || has_unicode_type t2 types.
Proof. unfold has_unicode_type. apply existsb_app. Qed.

Lemma is_safe_unicode_eq (t : text) (forbidden : list string) :
  is_safe_unicode t forbidden
  = (_ ← utf8_encode t; Ok (negb (has_unicode_type t forbidden))).
Proof.
  unfold is_safe_unicode. cbn [encode ENCODING].
  destruct (utf8_encode t) as [bs |]; [| reflexivity].
  cbn. rewrite separator_test_dead. reflexivity.
Qed.

Lemma has_unicode_type_types_app (t : text) (types types' : list string) :
  has_unicode_type t (types ++ types')
  = has_unicode_type t types || has_unicode_type t types'.
Proof.
  unfold has_unicode_type. induction t as [| c t' IH]; [reflexivity |].
  cbn [existsb]. rewrite IH, existsb_app.
  destruct (existsb _ types), (existsb _ types'), (existsb _ t'), (existsb _ t');
    reflexivity.
Qed.

(** How [has_unicode_type] matches: a type is a prefix of the category, so
    that one letter stands for a whole class and the empty string for every
    category. It is [False] for the empty text and for no types, [True] for
    any text that is not empty when the empty string is among the types,
    and over a list of types put together it is the disjunction. *)
Theorem has_unicode_type_prefixes (t : text) (types types' : list string) :
  (has_unicode_type t types = true
   <-> exists c ty, c ∈ t /\ ty ∈ types /\ String.prefix ty (category c) = true)
  /\ has_unicode_type [] types = false
  /\ has_unicode_type t [] = false
  /\ (t <> [] -> ""%string ∈ types -> has_unicode_type t types = true)
  /\ has_unicode_type t (types ++ types')
     = has_unicode_type t types || has_unicode_type t types'.
Proof.
  assert (Hiff : forall tys, has_unicode_type t tys = true
            <-> exists c ty, c ∈ t /\ ty ∈ tys /\ String.prefix ty (category c) = true).
  { intros tys. unfold has_unicode_type. rewrite existsb_exists. split.
    - intros (c & Hc & Hty). apply existsb_exists in Hty as (ty & Hty & Hp).
      exists c, ty. rewrite <- !list_elem_of_In in *. auto.
    - intros (c & ty & Hc & Hty & Hp). exists c. split; [apply list_elem_of_In, Hc |].
      apply existsb_exists. exists ty. split; [apply list_elem_of_In, Hty | exact Hp]. }
  split; [apply Hiff |]. split; [reflexivity |].
  split.
  { destruct (has_unicode_type t []) eqn:E; [| reflexivity].
    apply Hiff in E as (c & ty & _ & Hty & _). apply elem_of_nil in Hty. contradiction. }
  split; [| apply has_unicode_type_types_app].
  intros Hne Hin. apply Hiff. destruct t as [| c t']; [congruence |].
  exists c, ""%string. split; [left |]. split; [exact Hin |].
  destruct (category c); reflexivity.
Qed.

(** [is_safe_unicode] does not catch what the encoder raises. On a text of
    code points that are no surrogates it answers, and the answer is only
    that no character has a forbidden category: the test of the bytes
    against the separator never fires. On a text with a surrogate it raises
    [UnicodeEncodeError]. *)
Theorem is_safe_unicode_outcomes (t : text) (forbidden : list string) :
  (Forall (fun c => 0 <= c < 0x110000 /\ is_surrogate c = false) t ->
     is_safe_unicode t forbidden = Ok (negb (has_unicode_type t forbidden)))
  /\ (Exists (fun c => is_surrogate c = true) t ->
        is_safe_unicode t forbidden = Raise UnicodeEncodeError)
  /\ (forall e, is_safe_unicode t forbidden = Raise e -> e = UnicodeEncodeError).
Proof.
  rewrite is_safe_unicode_eq. split; [| split].
  - intros Hall. apply utf8_encode_ok in Hall as [bs ->]. reflexivity.
  - intros Hex. destruct (utf8_encode t) as [bs |] eqn:Henc.
    + assert (Hall : Forall (fun c => 0 <= c < 0x110000 /\ is_surrogate c = false) t)
        by (apply utf8_encode_ok; eauto).
      apply Exists_exists in Hex as (c & Hc & Hs).
      rewrite Forall_forall in Hall. apply Hall in Hc. destruct Hc. congruence.
    + cbn. f_equal. eapply utf8_encode_raises. eassumption.
  - intros e. destruct (utf8_encode t) as [bs |] eqn:Henc; cbn; [discriminate |].
    intros [= <-]. eapply utf8_encode_raises. eassumption.
Qed.

(** Both classifiers take a text made of two when they take each part, and
    only then. *)
Theorem safe_texts_concatenate (t1 t2 : text) (forbidden : list string) :
  (is_safe_ascii (t1 ++ t2) = Ok true
   <-> is_safe_ascii t1 = Ok true /\ is_safe_ascii t2 = Ok true)
  /\ (is_safe_unicode (t1 ++ t2) forbidden = Ok true
      <-> is_safe_unicode t1 forbidden = Ok true
          /\ is_safe_unicode t2 forbidden = Ok true).
Proof.
  split.
  - rewrite !is_safe_ascii_chars. apply Forall_app.
  - rewrite !is_safe_unicode_eq, has_unicode_type_app.
    pose proof (utf8_encode_ok (t1 ++ t2)) as H12.
    pose proof (utf8_encode_ok t1) as H1. pose proof (utf8_encode_ok t2) as H2.
    rewrite Forall_app in H12.
    destruct (utf8_encode (t1 ++ t2)) as [b12 |], (utf8_encode t1) as [b1 |],
      (utf8_encode t2) as [b2 |]; cbn.
    + destruct (has_unicode_type t1 forbidden), (has_unicode_type t2 forbidden); cbn;
        split; try tauto; try discriminate; intros [? ?]; discriminate.
    + exfalso. destruct H2 as [_ H2]. destruct H2 as [? [=]]. apply H12. eauto.
    + exfalso. destruct H1 as [_ H1]. destruct H1 as [? [=]]. apply H12. eauto.
    + exfalso. destruct H1 as [_ H1]. destruct H1 as [? [=]]. apply H12. eauto.
    + exfalso. destruct H12 as [_ H12]. destruct H12 as [? [=]].
      split; [apply H1 | apply H2]; eauto.
    + split; [discriminate | intros [_ [=]]].
    + split; [discriminate | intros [[=] _]].
    + split; [discriminate | intros [[=] _]].
Qed.
End ClassifierFacts.

(** A line break is a control character, category [Cc]: the one letter "C"
    forbids it. *)
Example has_unicode_type_class :
  has_unicode_type (H := latin1) [72; 10] ["C"]%string = true
  /\ has_unicode_type (H := latin1) [72; 10] ["Cf"; "Z"]%string = false
  /\ has_unicode_type (H := latin1) [72; 10] [""]%string = true.
Proof. repeat split. Qed.

Example is_safe_unicode_surrogate :
  is_safe_unicode (H := latin1) [72; 0xD800] ["C"]%string = Raise UnicodeEncodeError
  /\ is_safe_ascii [72; 0xD800] = Ok false.
Proof. split; reflexivity. Qed.

(** A text that [is_safe_ascii] accepts is its own encoding, one byte for a
    character, under both codecs, and decodes to itself; framed by the
    separator it is read back whatever encoding [read_text] is given. *)
Theorem safe_ascii_framing (t : text) (rest : bytes) (encoding : option codec) :
  is_safe_ascii t = Ok true ->
  encode Ascii7 t = Ok t /\ encode Utf8 t = Ok t
  /\ decode (default ENCODING encoding) t = Ok t
  /\ read_text (t ++ SEPARATOR ++ rest) encoding
     = match t with
       | [] => Ok (None, 0, false)
       | _ :: _ => Ok (Some t, len t, false)
       end.
Proof.
  intros Hsafe. apply is_safe_ascii_chars in Hsafe.
  assert (Hlow : Forall (fun c => 0 <= c < 0x80) t)
    by (eapply Forall_impl; [exact Hsafe |]; cbn; intros c ?; lia).
  split; [apply encode_ascii; assumption |].
  split; [apply encode_ascii; assumption |].
  split; [apply decode_ascii; assumption |].
  destruct t as [| c t']; [apply read_text_leading_separator |].
  rewrite read_text_separated, decode_ascii; [reflexivity | assumption | | discriminate].
  eapply Forall_impl; [exact Hsafe |]. cbn. intros b ?. lia.
Qed.

(** "Hi", read as ASCII. *)
Lemma safe_ascii_framing_witness :
  encode Ascii7 [72; 105] = Ok [72; 105] /\ encode Utf8 [72; 105] = Ok [72; 105]
  /\ decode Ascii7 [72; 105] = Ok [72; 105]
  /\ read_text ([72; 105] ++ SEPARATOR ++ [66]) (Some Ascii7) = Ok (Some [72; 105], 2, false).
Proof.
  exact (safe_ascii_framing [72; 105] [66] (Some Ascii7) eq_refl).
Defined.

(** ** The URI checks against each other *)

Section UriFacts.
Context `{Rfc3986}.

(** A source URI is a link URI: what [is_src_uri] accepts, [is_link_uri]
    accepts as well. *)
Theorem src_uri_is_link_uri (t : text) :
  is_src_uri t = Ok true -> is_link_uri t = Ok true.
Proof.
  intros Hsrc. destruct (is_safe_ascii_returns t) as [[|] Hs].
  - destruct (uri_reference t) as [u |] eqn:Hu.
    + rewrite (is_src_uri_safe t u) in Hsrc by assumption.
      rewrite (is_link_uri_safe t u) by assumption. f_equal.
      pose proof (accepts_link_1 u) as L1. pose proof (accepts_link_2 u) as L2.
      pose proof (accepts_src_1 u) as S1. pose proof (accepts_src_2 u) as S2.
      destruct (accepts link_uri_validator_1 u); [reflexivity |].
      apply L2. unfold present in *.
      destruct (accepts src_uri_validator_1 u).
      * destruct S1 as [(Hscheme & Hhost & Hpath) _]; [reflexivity |].
        split; [| assumption]. destruct Hscheme as [-> | ->]; discriminate.
      * injection Hsrc as Hsrc. apply S2 in Hsrc as [-> Hpath].
        split; [discriminate | assumption].
    + unfold is_src_uri in Hsrc. rewrite Hs in Hsrc. cbn in Hsrc.
      rewrite Hu in Hsrc. discriminate.
  - unfold is_src_uri in Hsrc. rewrite Hs in Hsrc. discriminate.
Qed.

(** The checks catch what the validators raise, not what the parser
    raises: [uri_reference] is called outside the [try]. Either check
    raises exactly when the text is safe ASCII and the parser raises on it,
    and with the parser's exception. *)
Theorem uri_checks_raise (t : text) (e : exn) :
  (is_link_uri t = Raise e <-> is_safe_ascii t = Ok true /\ uri_reference t = Raise e)
  /\ (is_src_uri t = Raise e <-> is_safe_ascii t = Ok true /\ uri_reference t = Raise e).
Proof.
  unfold is_link_uri, is_src_uri.
  destruct (is_safe_ascii_returns t) as [[|] ->]; cbn.
  - destruct (uri_reference t) as [u |]; cbn.
    + rewrite !tiers_accept. split; (split; [discriminate | intros [_ [=]]]).
    + split; (split; [intros [= <-]; auto | intros [_ [= <-]]; reflexivity]).
  - split; (split; [discriminate | intros [[=] _]]).
Qed.
End UriFacts.

(** A page over https: a source, and a link. *)
Lemma src_uri_is_link_uri_witness :
  is_src_uri (text_of_string "https://example.com/a.png") = Ok true
  /\ is_link_uri (text_of_string "https://example.com/a.png") = Ok true.
Proof.
  split; [reflexivity |].
  exact (src_uri_is_link_uri (H := rfc3986) (text_of_string "https://example.com/a.png") eq_refl).
Defined.

(** ** The range validators against each other *)

(** For a width of one byte at least, where the bounds are integers, and
    with zero allowed or a value that is not zero, checking a value against
    the width is checking it against the signed range of that width: [validate_range_bytesize] answers as [validate_range] with
    the bounds [-2^(8*size-1)] and [2^(8*size-1) - 1], the same value or the
    same refusal (with its note on zero when zero is not allowed). *)
Theorem validate_range_bytesize_as_range (name : string) (value : option Z) (size : Z)
    (optional allow_zero signed : bool) :
  0 < size -> value <> Some 0 \/ allow_zero = true ->
  validate_range_bytesize name value size optional allow_zero signed
  = match validate_range name value (- 2 ^ (8 * size - 1)) (2 ^ (8 * size - 1) - 1) optional with
    | Ok v => Ok v
    | Raise _ => Raise (ValueError name (OutOfRange (negb allow_zero)))
    end.
Proof.
  intros _ Hz. unfold validate_range_bytesize, validate_range.
  replace (bool_decide (value = Some 0) && negb allow_zero) with false.
  - destruct value as [v |]; [| reflexivity].
    destruct optional; cbn [negb andb]; [reflexivity |].
    change (0 - 2 ^ (8 * size - 1)) with (- 2 ^ (8 * size - 1)).
    destruct ((v <? _) || (v >? _)); reflexivity.
  - symmetry. destruct Hz as [Hz | ->]; [| apply andb_false_r].
    rewrite bool_decide_eq_false_2 by assumption. reflexivity.
Qed.

(** Two bytes: 40000 is too much for a signed width. *)
Lemma validate_range_bytesize_as_range_witness :
  validate_range_bytesize "amount" (Some 40000) 2 false true false
  = match validate_range "amount" (Some 40000) (- 2 ^ (8 * 2 - 1)) (2 ^ (8 * 2 - 1) - 1) false with
    | Ok v => Ok v
    | Raise _ => Raise (ValueError "amount" (OutOfRange (negb true)))
    end.
Proof.
  apply (validate_range_bytesize_as_range "amount" (Some 40000) 2 false true false).
  - lia.
  - right. reflexivity.
Defined.

(** The zero check comes first and [optional] does not switch it off: a
    zero that is not allowed is refused for every width, optional or not.
    With [optional=True] every other value comes back as it is, [None] and
    values far outside the width included. And the function raises nothing
    but its two [ValueError]s. *)
Theorem validate_range_bytesize_zero_first (name : string) (value : option Z) (size : Z)
    (optional allow_zero signed : bool) :
  (value = Some 0 /\ allow_zero = false ->
     validate_range_bytesize name value size optional allow_zero signed
     = Raise (ValueError name MayNotBeZero))
  /\ (~ (value = Some 0 /\ allow_zero = false) ->
        validate_range_bytesize name value size true allow_zero signed = Ok value)
  /\ (forall e, validate_range_bytesize name value size optional allow_zero signed = Raise e ->
        e = ValueError name MayNotBeZero
        \/ e = ValueError name (OutOfRange (negb allow_zero))).
Proof.
  unfold validate_range_bytesize. split; [| split].
  - intros [-> ->]. reflexivity.
  - intros Hnz. destruct (bool_decide_reflect (value = Some 0)) as [-> | Hne]; cbn [andb].
    + destruct allow_zero; [reflexivity | tauto].
    + destruct value; reflexivity.
  - intros e. destruct (bool_decide (value = Some 0) && negb allow_zero); [intros [= <-]; auto |].
    destruct value as [v |]; [| discriminate].
    destruct optional; cbn [negb]; [discriminate |].
    destruct ((v <? _) || (v >? _)); [intros [= <-]; auto | discriminate].
Qed.

Example zero_refused_when_optional :
  validate_range_bytesize "fee" (Some 0) 8 true false false
  = Raise (ValueError "fee" MayNotBeZero)
  /\ validate_range_bytesize "fee" (Some (2 ^ 70)) 8 true false false = Ok (Some (2 ^ 70)).
Proof. split; reflexivity. Qed.

(** What a returned value is known to satisfy: it is the value that was
    passed; it is not zero unless zero is allowed; and, unless the check is
    optional, an integer lies in the signed range of the width, which is
    then one byte at least. *)
Theorem validate_range_bytesize_returns (name : string) (value r : option Z) (size : Z)
    (optional allow_zero signed : bool) :
  validate_range_bytesize name value size optional allow_zero signed = Ok r ->
  r = value
  /\ (allow_zero = false -> r <> Some 0)
  /\ (optional = false -> forall v, r = Some v ->
        0 < size /\ - 2 ^ (8 * size - 1) <= v <= 2 ^ (8 * size - 1) - 1).
Proof.
  unfold validate_range_bytesize. intros Hok.
  destruct (bool_decide_reflect (value = Some 0)) as [Hz | Hnz]; cbn [andb] in Hok.
  - destruct allow_zero; cbn [negb] in Hok; [| discriminate]. subst value.
    destruct optional; cbn [negb] in Hok.
    + injection Hok as <-. split; [reflexivity |]. split; discriminate.
    + destruct (Z.ltb_spec 0 (0 - 2 ^ (8 * size - 1))); [discriminate |].
      destruct (Z.gtb_spec 0 (2 ^ (8 * size - 1) - 1)); [discriminate |].
      injection Hok as <-. split; [reflexivity |]. split; [discriminate |].
      intros _ v [= <-].
      destruct (Z.lt_ge_cases (8 * size - 1) 0) as [Hneg | Hpos]; [| lia].
      rewrite (Z.pow_neg_r 2 (8 * size - 1)) in * by lia. lia.
  - destruct value as [v |]; [| injection Hok as <-; split; [reflexivity |]; split; discriminate].
    destruct optional; cbn [negb] in Hok.
    + injection Hok as <-. split; [reflexivity |]. split; [intros _; exact Hnz | discriminate].
    + destruct (Z.ltb_spec v (0 - 2 ^ (8 * size - 1))); [discriminate |].
      destruct (Z.gtb_spec v (2 ^ (8 * size - 1) - 1)); [discriminate |].
      injection Hok as <-. split; [reflexivity |]. split; [intros _; exact Hnz |].
      intros _ v' [= <-].
      destruct (Z.lt_ge_cases (8 * size - 1) 0) as [Hneg | Hpos]; [| lia].
      rewrite (Z.pow_neg_r 2 (8 * size - 1)) in * by lia. lia.
Qed.

(** -32768 is the least value of two bytes. *)
Lemma validate_range_bytesize_returns_witness :
  validate_range_bytesize "qty" (Some (-32768)) 2 false false false = Ok (Some (-32768))
  /\ 0 < 2 /\ - 2 ^ (8 * 2 - 1) <= -32768 <= 2 ^ (8 * 2 - 1) - 1.
Proof.
  split; [reflexivity |].
  exact (proj2 (proj2 (validate_range_bytesize_returns "qty" (Some (-32768))
                         (Some (-32768)) 2 false false false eq_refl))
           eq_refl (-32768) eq_refl).
Defined.

(** A value that passes for a width passes for every larger one. *)
Theorem validate_range_bytesize_widens (name : string) (value : option Z) (size size' : Z)
    (optional allow_zero signed : bool) :
  size <= size' ->
  validate_range_bytesize name value size optional allow_zero signed = Ok value ->
  validate_range_bytesize name value size' optional allow_zero signed = Ok value.
Proof.
  intros Hle. unfold validate_range_bytesize.
  destruct (bool_decide (value = Some 0) && negb allow_zero); [discriminate |].
  destruct value as [v |]; [| reflexivity].
  destruct optional; cbn [negb]; [reflexivity |].
  destruct (Z.ltb_spec v (0 - 2 ^ (8 * size - 1))); [discriminate |].
  destruct (Z.gtb_spec v (2 ^ (8 * size - 1) - 1)); [discriminate |]. intros _.
  assert (Hpow : 2 ^ (8 * size - 1) <= 2 ^ (8 * size' - 1)).
  { destruct (Z.lt_ge_cases (8 * size - 1) 0) as [Hneg | Hpos].
    - rewrite (Z.pow_neg_r 2 (8 * size - 1)) by lia. apply Z.pow_nonneg. lia.
    - apply Z.pow_le_mono_r; lia. }
  destruct (Z.ltb_spec v (0 - 2 ^ (8 * size' - 1))); [lia |].
  destruct (Z.gtb_spec v (2 ^ (8 * size' - 1) - 1)); [lia |]. reflexivity.
Qed.

(** 100 fits one byte, and four. *)
Lemma validate_range_bytesize_widens_witness :
  validate_range_bytesize "fee" (Some 100) 4 false false false = Ok (Some 100).
Proof.
  apply (validate_range_bytesize_widens "fee" (Some 100) 1 4 false false false).
  - lia.
  - reflexivity.
Defined.

(** ** The address codec on any input *)

Section AddressFacts.
Context `{CashAddress}.

Lemma to_bytes_one_overflow (x : Z) : ~ 0 <= x < 256 -> to_bytes x 1 = Raise OverflowError.
Proof.
  intros Hx. unfold to_bytes. change (256 ^ Z.of_nat 1) with 256.
  destruct (Z.ltb_spec x 0); [reflexivity |].
  destruct (Z.leb_spec 256 x); [reflexivity | lia].
Qed.

Lemma bytes_of_list_cases (l : list Z) :
  (Forall is_byte l /\ bytes_of_list l = Ok l)
  \/ (~ Forall is_byte l /\ bytes_of_list l = Raise (ValueError "bytes" BytesRange)).
Proof.
  destruct (decide (Forall is_byte l)) as [Hall | Hnot].
  - left. split; [assumption | apply bytes_of_list_ok; assumption].
  - right. split; [assumption |]. unfold bytes_of_list.
    destruct (forallb _ l) eqn:Hb; [| reflexivity].
    exfalso. apply Hnot. rewrite forallb_forall in Hb. apply Forall_forall. intros b Hin.
    apply list_elem_of_In, Hb, andb_true_iff in Hin as [H1 H2].
    apply Z.leb_le in H1. apply Z.ltb_lt in H2. split; assumption.
Qed.

(** [serialize_address] on an address the library parses: the header bytes
    are written first, so a code or a length that does not fit one byte is
    an [OverflowError] before the payload is looked at. *)
Lemma serialize_address_parsed (address : string) (code : Z) (payload : list Z) :
  parses_to address code payload ->
  serialize_address address
  = (data ← to_bytes code 1;
     l ← to_bytes (len payload) 1;
     p ← bytes_of_list payload;
     Ok (data ++ l ++ p)).
Proof.
  intros (a & m & Hparse & Htype & <- & <-).
  unfold serialize_address. rewrite Hparse. cbn. rewrite Htype. reflexivity.
Qed.

Lemma serialize_address_returns (address : string) (data : bytes) :
  serialize_address address = Ok data
  <-> exists code payload,
        parses_to address code payload /\ is_byte code /\ len payload < 256
        /\ Forall is_byte payload /\ data = code :: len payload :: payload.
Proof.
  split.
  - intros Hser.
    destruct (from_string address) as [a |] eqn:Hparse;
      [| unfold serialize_address in Hser; rewrite Hparse in Hser; discriminate].
    destruct (address_type "cash" (addr_version a)) as [m |] eqn:Htype;
      [| unfold serialize_address in Hser; rewrite Hparse in Hser; cbn in Hser;
         rewrite Htype in Hser; discriminate].
    assert (Hp : parses_to address m.1.2 (addr_payload a)) by (exists a, m; auto).
    rewrite (serialize_address_parsed _ _ _ Hp) in Hser.
    exists m.1.2, (addr_payload a). split; [exact Hp |].
    destruct (decide (0 <= m.1.2 < 256)) as [Hcode | Hcode];
      [| rewrite (to_bytes_one_overflow m.1.2) in Hser by assumption; discriminate].
    rewrite (to_bytes_one m.1.2) in Hser by assumption. cbn [mbind result_bind] in Hser.
    pose proof (len_nonneg (addr_payload a)).
    destruct (decide (0 <= len (addr_payload a) < 256)) as [Hlen | Hlen];
      [| rewrite to_bytes_one_overflow in Hser by assumption; discriminate].
    rewrite to_bytes_one in Hser by assumption. cbn [mbind result_bind] in Hser.
    destruct (bytes_of_list_cases (addr_payload a)) as [[Hall Hb] | [_ Hb]];
      rewrite Hb in Hser; [| discriminate].
    cbn in Hser. injection Hser as <-.
    split; [exact Hcode |]. split; [lia |]. split; [exact Hall | reflexivity].
  - intros (code & payload & Hparse & Hcode & Hlen & Hall & ->).
    rewrite (serialize_address_parsed _ _ _ Hparse).
    pose proof (len_nonneg payload).
    rewrite !to_bytes_one by (unfold is_byte in *; lia). cbn.
    rewrite bytes_of_list_ok by assumption. reflexivity.
Qed.

(** When [serialize_address] returns. It does exactly for an address that
    the library parses into a version code of one byte and a payload of at
    most 255 values, bytes each, and what it returns is the code, the length
    and the payload. *)
Theorem serialize_address_ok_iff (address : string) (data : bytes) :
  serialize_address address = Ok data
  <-> exists code payload,
        parses_to address code payload /\ is_byte code /\ len payload < 256
        /\ Forall is_byte payload /\ data = code :: len payload :: payload.
Proof. apply serialize_address_returns. Qed.

(** When it does not. An address that the library does not parse is the
    library's [InvalidAddress]; one that it parses into a payload of 256
    values or more is an [OverflowError] from the length byte, although the
    library and [validate_address] take it; a value of the payload that is
    no byte is the [ValueError] of [bytes()]. *)
Theorem serialize_address_refuses (address : string) :
  (from_string address = None -> serialize_address address = Raise InvalidAddress)
  /\ (forall code payload, parses_to address code payload ->
        ~ is_byte code \/ 256 <= len payload ->
        serialize_address address = Raise OverflowError)
  /\ (forall code payload, parses_to address code payload ->
        is_byte code -> len payload < 256 -> ~ Forall is_byte payload ->
        serialize_address address = Raise (ValueError "bytes" BytesRange)).
Proof.
  split; [| split].
  - intros Hparse. unfold serialize_address. rewrite Hparse. reflexivity.
  - intros code payload Hparse Hover. rewrite (serialize_address_parsed _ _ _ Hparse).
    destruct (decide (0 <= code < 256)) as [Hcode | Hcode];
      [| rewrite (to_bytes_one_overflow code) by assumption; reflexivity].
    rewrite (to_bytes_one code) by assumption. cbn [mbind result_bind].
    rewrite to_bytes_one_overflow; [reflexivity |].
    unfold is_byte in Hover. lia.
  - intros code payload Hparse Hcode Hlen Hnot.
    rewrite (serialize_address_parsed _ _ _ Hparse).
    pose proof (len_nonneg payload).
    rewrite !to_bytes_one by (unfold is_byte in *; lia). cbn.
    destruct (bytes_of_list_cases payload) as [[Hall _] | [_ ->]]; [contradiction | reflexivity].
Qed.

(** A frame and what follows it. *)
Lemma deserialize_address_frame (code : Z) (payload rest : bytes) :
  deserialize_address (code :: len payload :: payload ++ rest)
  = (a ← lib (new_address (VCode code) payload);
     address ← lib (cash_address a);
     Ok (address, rest)).
Proof.
  pose proof (len_nonneg payload). pose proof (len_nonneg rest).
  rewrite deserialize_address_header by lia. rewrite len_app.
  destruct (Z.ltb_spec (len payload + len rest) (len payload)); [lia |].
  unfold len. rewrite Nat2Z.id, take_app_length, drop_app_length. reflexivity.
Qed.

(** Addresses in a stream. What [serialize_address] writes tells where it
    ends: followed by any other bytes, it is read back by
    [deserialize_address] as the address the library renders, and the bytes
    that follow are handed back untouched. *)
Theorem address_round_trip_in_stream (address canonical : string) (code : Z)
    (payload rest : bytes) :
  parses_to address code payload ->
  is_byte code -> Forall is_byte payload -> len payload < 256 ->
  renders_to code payload canonical ->
  (data ← serialize_address address; deserialize_address (data ++ rest))
  = Ok (canonical, rest).
Proof.
  intros Hparse Hcode Hpayload Hlen (a & Hnew & Hcash).
  assert (Hser : serialize_address address = Ok (code :: len payload :: payload)).
  { apply serialize_address_returns. exists code, payload. auto. }
  rewrite Hser. cbn [mbind result_bind app].
  rewrite deserialize_address_frame, Hnew. cbn. rewrite Hcash. reflexivity.
Qed.

(** What [serialize_address] writes is never short: [deserialize_address]
    does not report it as truncated, whatever follows it. It is between 2
    and 257 bytes, and its second byte counts the ones after it. *)
Theorem serialize_address_framed (address : string) (data rest : bytes) :
  serialize_address address = Ok data ->
  2 <= len data <= 257
  /\ Forall is_byte data
  /\ nth 1 data 0 = len data - 2
  /\ ~ truncated (deserialize_address (data ++ rest)).
Proof.
  intros Hser. apply serialize_address_returns in Hser
    as (code & payload & _ & Hcode & Hlen & Hall & ->).
  pose proof (len_nonneg payload).
  split; [rewrite !len_cons; lia |].
  split; [constructor; [exact Hcode |]; constructor; [unfold is_byte; lia | exact Hall] |].
  split; [cbn [nth]; rewrite !len_cons; lia |].
  cbn [app]. rewrite deserialize_address_frame. unfold truncated.
  destruct (new_address _ _) as [a |]; cbn; [| intros [|]; discriminate].
  destruct (cash_address a); cbn; intros [|]; discriminate.
Qed.

(** Reading an address makes progress: what [deserialize_address] hands
    back is the end of the buffer, after the two header bytes and as many
    bytes as the second one says. *)
Theorem deserialize_address_progress (data rest : bytes) (address : string) :
  Forall is_byte data ->
  deserialize_address data = Ok (address, rest) ->
  exists used, data = used ++ rest /\ len used = 2 + nth 1 data 0 /\ len rest < len data.
Proof.
  intros Hbytes Hdes.
  destruct data as [| v [| n body]]; [discriminate Hdes .. |].
  assert (Hn : 0 <= n)
    by (inversion Hbytes as [| ? ? _ Hb]; inversion Hb; unfold is_byte in *; lia).
  rewrite deserialize_address_header in Hdes by assumption.
  destruct (Z.ltb_spec (len body) n); [discriminate |].
  destruct (new_address _ _) as [a |]; [| discriminate]. cbn in Hdes.
  destruct (cash_address a); [| discriminate]. cbn in Hdes. injection Hdes as _ <-.
  exists (v :: n :: firstn (Z.to_nat n) body).
  split; [cbn [app]; rewrite take_drop; reflexivity |].
  assert (Hused : len (firstn (Z.to_nat n) body) = n).
  { unfold len in *. rewrite length_take. lia. }
  split; [rewrite !len_cons, Hused; cbn [nth]; lia |].
  rewrite !len_cons. unfold len in *. rewrite length_drop. lia.
Qed.
End AddressFacts.

(** The script hash of twenty zero bytes, and three bytes of something else
    after it. *)
Lemma address_round_trip_in_stream_witness :
  (data ← serialize_address "bitcoincash:pqqqqqqqqqqqqqqqqqqqqqqqqqqqqqqqqq7k2ehe5v";
   deserialize_address (data ++ [1; 2; 3]))
  = Ok ("bitcoincash:pqqqqqqqqqqqqqqqqqqqqqqqqqqqqqqqqq7k2ehe5v"%string, [1; 2; 3]).
Proof.
  refine (address_round_trip_in_stream (H := cashaddress)
            "bitcoincash:pqqqqqqqqqqqqqqqqqqqqqqqqqqqqqqqqq7k2ehe5v"
            "bitcoincash:pqqqqqqqqqqqqqqqqqqqqqqqqqqqqqqqqq7k2ehe5v"
            8 (repeat 0 20) [1; 2; 3] _ _ _ _ _).
  - eexists _, _. split; [vm_compute; reflexivity |].
    split; [vm_compute; reflexivity |]. split; reflexivity.
  - unfold is_byte. lia.
  - repeat constructor; unfold is_byte; lia.
  - vm_compute. reflexivity.
  - eexists. split; [vm_compute; reflexivity |]. vm_compute. reflexivity.
Defined.

Lemma serialize_address_framed_witness :
  2 <= len (8 :: 20 :: repeat 0 20) <= 257
  /\ Forall is_byte (8 :: 20 :: repeat 0 20)
  /\ nth 1 (8 :: 20 :: repeat 0 20) 0 = len (8 :: 20 :: repeat 0 20) - 2
  /\ ~ truncated (deserialize_address (H := cashaddress) ((8 :: 20 :: repeat 0 20) ++ [5])).
Proof.
  refine (serialize_address_framed (H := cashaddress)
            "bitcoincash:pqqqqqqqqqqqqqqqqqqqqqqqqqqqqqqqqq7k2ehe5v"
            (8 :: 20 :: repeat 0 20) [5] _).
  vm_compute. reflexivity.
Defined.

(** Two bytes of payload and one byte left over. *)
Lemma deserialize_address_progress_witness :
  exists used, [0; 2; 7; 9; 5] = used ++ [5]
               /\ len used = 2 + nth 1 [0; 2; 7; 9; 5] 0
               /\ len [5] < len [0; 2; 7; 9; 5].
Proof.
  refine (deserialize_address_progress (H := cashaddress) [0; 2; 7; 9; 5] [5]
            "bitcoincash:qqrsjrvc7us5g" _ _).
  - repeat constructor; unfold is_byte; lia.
  - vm_compute. reflexivity.
Defined.

(** An address the library takes and [serialize_address] cannot write: its
    payload is 256 bytes long. *)
Example long_address_overflows :
  validate_address (H := cashaddress) "to" long_address = Ok long_address
  /\ (exists a, from_string long_address = Some a /\ len (addr_payload a) = 256)
  /\ serialize_address (H := cashaddress) long_address = Raise OverflowError.
Proof.
  split; [vm_compute; reflexivity |].
  split; [| vm_compute; reflexivity].
  eexists. split; [vm_compute; reflexivity |]. vm_compute. reflexivity.
Qed.

(** ** Equality between operations *)

Section EqualityLaws.
Context {class value : Type}.
Variable issubclass : class -> class -> bool.
Variable value_eq : value -> value -> bool.

Lemma same_fields_sym (d1 d2 : gmap string value) :
  (forall a b, value_eq a b = value_eq b a) ->
  same_fields value_eq d1 d2 -> same_fields value_eq d2 d1.
Proof.
  intros Hsym Hsame k. specialize (Hsame k).
  destruct (d1 !! k), (d2 !! k); try assumption. rewrite Hsym. assumption.
Qed.

Lemma dict_eq_sym (d1 d2 : gmap string value) :
  (forall a b, value_eq a b = value_eq b a) ->
  dict_eq value_eq d1 d2 = dict_eq value_eq d2 d1.
Proof.
  intros Hsym. apply eq_true_iff_eq. rewrite !dict_eq_same_fields.
  split; apply same_fields_sym; assumption.
Qed.

Lemma dict_eq_refl (d : gmap string value) :
  (forall a, value_eq a a = true) -> dict_eq value_eq d d = true.
Proof.
  intros Hrefl. apply dict_eq_same_fields. intros k. destruct (d !! k); auto.
Qed.
End EqualityLaws.

(** Between two operations the test does not depend on the side: when the
    [==] of the field values is symmetric, [x == y] and [y == x] give the
    same answer, and so do [x != y] and [y != x]. Neither raises. *)
Theorem eq_symmetric {class value : Type} (issubclass : class -> class -> bool)
    (value_eq : value -> value -> bool) (x y : operation class value) :
  (forall a b, value_eq a b = value_eq b a) ->
  __eq__ issubclass value_eq x (as_object y) = __eq__ issubclass value_eq y (as_object x)
  /\ __ne__ issubclass value_eq x (as_object y) = __ne__ issubclass value_eq y (as_object x)
  /\ exists r, __eq__ issubclass value_eq x (as_object y) = Ok r.
Proof.
  intros Hsym.
  assert (Heq : forall a b : operation class value,
            __eq__ issubclass value_eq a (as_object b)
            = Ok (related issubclass a (as_object b)
                  && dict_eq value_eq (op_dict a) (op_dict b)))
    by (intros a b; apply eq_with_dict; reflexivity).
  assert (Hxy : __eq__ issubclass value_eq x (as_object y)
                = __eq__ issubclass value_eq y (as_object x)).
  { rewrite !Heq. unfold related. cbn [class_of as_object].
    rewrite (dict_eq_sym value_eq (op_dict x)) by assumption.
    rewrite (orb_comm (issubclass (op_class y) (op_class x))). reflexivity. }
  split; [exact Hxy |]. split; [rewrite !ne_negates, Hxy; reflexivity |].
  rewrite Heq. eauto.
Qed.

(** An operation equals itself, when a class is its own subclass and a
    field value equals itself. *)
Theorem eq_reflexive {class value : Type} (issubclass : class -> class -> bool)
    (value_eq : value -> value -> bool) (x : operation class value) :
  (forall c, issubclass c c = true) -> (forall a, value_eq a a = true) ->
  __eq__ issubclass value_eq x (as_object x) = Ok true
  /\ __ne__ issubclass value_eq x (as_object x) = Ok false.
Proof.
  intros Hclass Hvalue.
  assert (Heq : __eq__ issubclass value_eq x (as_object x) = Ok true).
  { rewrite (eq_with_dict issubclass value_eq x (as_object x) (op_dict x)) by reflexivity.
    unfold related. cbn [class_of as_object].
    rewrite Hclass, dict_eq_refl by assumption. reflexivity. }
  split; [exact Heq |]. rewrite ne_negates, Heq. reflexivity.
Qed.

(** Two operations of one type with different amounts, from either side. *)
Lemma eq_symmetric_witness :
  __eq__ py_issubclass field_eq
    {| op_class := class_operation "Create"; op_dict := {[ "supply" := FInt 100 ]} |}
    (as_object {| op_class := class_operation "Create";
                  op_dict := {[ "supply" := FInt 7 ]} |})
  = __eq__ py_issubclass field_eq
      {| op_class := class_operation "Create"; op_dict := {[ "supply" := FInt 7 ]} |}
      (as_object {| op_class := class_operation "Create";
                    op_dict := {[ "supply" := FInt 100 ]} |}).
Proof.
  refine (proj1 (eq_symmetric py_issubclass field_eq _ _ _)).
  intros a b. unfold field_eq. apply bool_decide_ext. split; congruence.
Defined.

Lemma eq_reflexive_witness :
  __eq__ py_issubclass field_eq
    {| op_class := class_operation "Create"; op_dict := {[ "supply" := FInt 100 ]} |}
    (as_object {| op_class := class_operation "Create";
                  op_dict := {[ "supply" := FInt 100 ]} |})
  = Ok true.
Proof.
  refine (proj1 (eq_reflexive py_issubclass field_eq _ _ _)).
  - intros c. unfold py_issubclass.
    destruct c; try reflexivity; apply bool_decide_eq_true_2; reflexivity.
  - intros a. unfold field_eq. apply bool_decide_eq_true_2. reflexivity.
Defined.

(** ** The rendering of an operation *)

Lemma append_assoc (s1 s2 s3 : string) : (s1 +:+ s2) +:+ s3 = s1 +:+ (s2 +:+ s3).
Proof.
  induction s1 as [| c s1 IH]; [reflexivity |].
  change (String c ((s1 +:+ s2) +:+ s3) = String c (s1 +:+ (s2 +:+ s3))).
  f_equal. exact IH.
Qed.

(** The layout of [to_string]. Without keyword arguments it is the class
    name alone, with no colon. An empty [indent] counts as none: the
    arguments then follow on the same line. And each further argument adds
    its separator, a space or a line break and the indent, and then
    [key=value], to what was there, the value written with [str()] for a
    [Decimal] and with [repr()] for anything else. *)
Theorem to_string_layout (cls_name : string) (indent : option string)
    (kwargs : list (string * argument)) (key : string) (value : argument) :
  to_string cls_name indent [] = cls_name
  /\ to_string cls_name (Some "") kwargs = to_string cls_name None kwargs
  /\ to_string cls_name indent [(key, value)]
     = cls_name +:+ ":" +:+ (if truth indent then newline +:+ default "" indent else " ")
       +:+ key +:+ "=" +:+ (if is_Decimal value then arg_str value else arg_repr value)
  /\ (kwargs <> [] ->
      to_string cls_name indent (kwargs ++ [(key, value)])
      = to_string cls_name indent kwargs
        +:+ (if truth indent then newline +:+ default "" indent else " ")
        +:+ key +:+ "=" +:+ (if is_Decimal value then arg_str value else arg_repr value)).
Proof.
  split; [reflexivity |]. split; [reflexivity |]. split.
  - unfold to_string. cbn [len length Z.of_nat Z.ltb Z.compare fold_left fst snd].
    rewrite !append_assoc. reflexivity.
  - intros Hne. unfold to_string.
    assert (H1 : (0 <? len kwargs) = true).
    { destruct kwargs; [congruence |]. rewrite len_cons. pose proof (len_nonneg kwargs).
      apply Z.ltb_lt. lia. }
    assert (H2 : (0 <? len (kwargs ++ [(key, value)])) = true).
    { rewrite len_app. pose proof (len_nonneg kwargs). apply Z.ltb_lt.
      change (len [(key, value)]) with 1. lia. }
    rewrite H1, H2, fold_left_app. cbn [fold_left fst snd].
    rewrite !append_assoc. reflexivity.
Qed.

Example to_string_indented :
  to_string "Create" (Some "  ")
    [("supply", {| is_Decimal := false; arg_str := "100"; arg_repr := "100" |});
     ("fee", {| is_Decimal := true; arg_str := "0.5"; arg_repr := "Decimal('0.5')" |})]
  = ("Create:" +:+ newline +:+ "  supply=100" +:+ newline +:+ "  fee=0.5")%string.
Proof. reflexivity. Qed.

Example to_string_one_line :
  to_string "Create" None
    [("symbol", {| is_Decimal := false; arg_str := "ABC"; arg_repr := "'ABC'" |})]
  = "Create: symbol='ABC'"%string.
Proof. reflexivity. Qed.
